(** * OpenOil: the per-timestep particle update and the number/reader combinator

    A shallow embedding of [models/openoil.py] ([OpenOil.update], the oil
    properties read by [OpenOil.__init__], the area of a slick in
    [OpenOil.seed_from_gml]) and of
    [opendrift/readers/operators/numops.py] ([Combined]), with the
    properties their specification states and further properties of the
    code.

    Numbers.  numpy computes on IEEE floats.  The embedding keeps the IEEE
    special values (a division by zero yields an infinity or a NaN, and a
    NaN compares false), and replaces the finite floats by exact rationals:
    rounding, overflow, underflow and the sign of zero are abstracted away.

    The arrays of the environment and the configured numbers are finite
    (the framework fills what a reader does not supply with the fallback
    values), the element properties are floats.

    Arrays.  An element property is either one scalar shared by all the
    elements or an array with one entry per element ([np.isscalar] tells
    them apart in the source); binary operations broadcast.  The arrays of
    one call are aligned index for index with the active elements;
    operations on arrays of different lengths, which numpy rejects, are
    outside the model (they pair the entries up to the shorter length). *)

From Stdlib Require Import QArith Qround Qpower Qabs Lqa ZArith List String.
From Stdlib Require Import Bool.
From Stdlib Require Import Sorted.
From stdpp Require Import base option list gmap strings sorting.

Open Scope Q_scope.

(* ================================================================== *)
(** * numpy: numbers, arrays, interpolation *)
(* ================================================================== *)

Module Numpy.

(** A float: a finite value, or one of the IEEE special values. *)
Inductive num : Type :=
| Finite (q : Q)
| PosInf
| NegInf
| NaN.

(** What a division of a non-zero finite or a product with an infinity
    yields, by the sign of [q]: [pos] for [q > 0], [neg] for [q < 0], NaN
    for zero. *)
Definition by_sign (q : Q) (pos neg : num) : num :=
  match q ?= 0 with
  | Gt => pos
  | Lt => neg
  | Eq => NaN
  end.

Definition nopp (a : num) : num :=
  match a with
  | Finite q => Finite (- q)
  | PosInf => NegInf
  | NegInf => PosInf
  | NaN => NaN
  end.

Definition nadd (a b : num) : num :=
  match a, b with
  | NaN, _ | _, NaN => NaN
  | Finite x, Finite y => Finite (x + y)
  | PosInf, NegInf | NegInf, PosInf => NaN
  | PosInf, _ | _, PosInf => PosInf
  | NegInf, _ | _, NegInf => NegInf
  end.

Definition nsub (a b : num) : num := nadd a (nopp b).

Definition nmul (a b : num) : num :=
  match a, b with
  | NaN, _ | _, NaN => NaN
  | Finite x, Finite y => Finite (x * y)
  | Finite x, PosInf | PosInf, Finite x => by_sign x PosInf NegInf
  | Finite x, NegInf | NegInf, Finite x => by_sign x NegInf PosInf
  | PosInf, PosInf | NegInf, NegInf => PosInf
  | PosInf, NegInf | NegInf, PosInf => NegInf
  end.

(** numpy's true division: no exception on a zero divisor, the quotient is
    an infinity (non-zero dividend) or a NaN (zero dividend). *)
Definition ndiv (a b : num) : num :=
  match a, b with
  | NaN, _ | _, NaN => NaN
  | Finite x, Finite y =>
      if Qeq_bool y 0 then by_sign x PosInf NegInf else Finite (x / y)
  | Finite _, (PosInf | NegInf) => Finite 0
  | PosInf, Finite y => if Qle_bool 0 y then PosInf else NegInf
  | NegInf, Finite y => if Qle_bool 0 y then NegInf else PosInf
  | (PosInf | NegInf), (PosInf | NegInf) => NaN
  end.

Definition Qltb (x y : Q) : bool := negb (Qle_bool y x).

(** [a > b]; false as soon as one side is a NaN. *)
Definition ngtb (a b : num) : bool :=
  match a, b with
  | NaN, _ | _, NaN => false
  | Finite x, Finite y => Qltb y x
  | PosInf, (Finite _ | NegInf) => true
  | Finite _, NegInf => true
  | _, _ => false
  end.

(** [a == b]; a NaN equals nothing. *)
Definition neqb (a b : num) : bool :=
  match a, b with
  | Finite x, Finite y => Qeq_bool x y
  | PosInf, PosInf | NegInf, NegInf => true
  | _, _ => false
  end.

(** The library functions the source calls on floats.  [np_sqrt],
    [np_exp] and [np_power] are taken on finite arguments (the square root
    on non-negative ones); the random source is a state threaded through
    the draws: [np_random_rand n] draws [n] uniform numbers of [0,1),
    [np_random_normal loc scale n] draws [n] Gaussian numbers. *)
Class NumpyLib : Type := {
  np_sqrt : Q -> Q;
  np_exp : Q -> Q;
  np_power : Q -> Q -> Q;
  RandomState : Type;
  np_random_rand : nat -> RandomState -> list Q * RandomState;
  np_random_normal : Q -> Q -> nat -> RandomState -> list Q * RandomState
}.

(** What the proofs use of those functions. *)
Class NumpyLaws (lib : NumpyLib) : Prop := {
  np_sqrt_nonneg : forall x, 0 <= x -> 0 <= np_sqrt x;
  np_exp_pos : forall x, 0 < np_exp x;
  np_power_pos : forall x y, 0 < x -> 0 < np_power x y
}.

Section Float.
Context {lib : NumpyLib}.

(** [np.sqrt]: NaN on a negative argument. *)
Definition nsqrt (a : num) : num :=
  match a with
  | Finite x => if Qltb x 0 then NaN else Finite (np_sqrt x)
  | PosInf => PosInf
  | NegInf | NaN => NaN
  end.

(** [np.exp]. *)
Definition nexp (a : num) : num :=
  match a with
  | Finite x => Finite (np_exp x)
  | PosInf => PosInf
  | NegInf => Finite 0
  | NaN => NaN
  end.

End Float.

(** An element property: a scalar shared by all elements, or an array. *)
Inductive ndarray : Type :=
| Scalar (v : num)
| Array (l : list num).

(** Entry [i] of a property: a scalar is every element's value. *)
Definition item (a : ndarray) (i : nat) : option num :=
  match a with
  | Scalar v => Some v
  | Array l => l !! i
  end.

(** A binary operation with broadcasting. *)
Definition lift2 (f : num -> num -> num) (a b : ndarray) : ndarray :=
  match a, b with
  | Scalar x, Scalar y => Scalar (f x y)
  | Scalar x, Array l => Array (map (f x) l)
  | Array l, Scalar y => Array (map (fun x => f x y) l)
  | Array l, Array k => Array (zip_with f l k)
  end.

Definition lift1 (f : num -> num) (a : ndarray) : ndarray :=
  match a with
  | Scalar x => Scalar (f x)
  | Array l => Array (map f l)
  end.

(** The same, when the left operand is known to be an array. *)
Definition lift2_l (f : num -> num -> num) (l : list num) (b : ndarray)
  : list num :=
  match b with
  | Scalar y => map (fun x => f x y) l
  | Array k => zip_with f l k
  end.

(** [np.interp] on one finite abscissa, from the sample point [(x0, y0)]
    on, [x0 <= x]: the first segment whose right end is beyond [x] gives
    [slope * (x - x0) + y0]; past the last sample point the value is the
    last ordinate. *)
Fixpoint interp_from (x x0 y0 : Q) (pts : list (Q * Q)) : Q :=
  match pts with
  | [] => y0
  | (x1, y1) :: rest =>
      if Qltb x x1
      then (y1 - y0) / (x1 - x0) * (x - x0) + y0
      else interp_from x x1 y1 rest
  end.

(** [np.interp(x, xp, fp)] with the default [left = fp[0]] and
    [right = fp[-1]]: a NaN abscissa gives a NaN, an infinite one the
    end ordinate.  numpy raises on an empty table; OpenOil's tables are
    columns of the oil property file and are not empty, the model gives a
    NaN there. *)
Definition interp1 (xp fp : list Q) (x : num) : num :=
  match zip xp fp with
  | [] => NaN
  | (x0, y0) :: rest =>
      match x with
      | NaN => NaN
      | NegInf => Finite y0
      | PosInf => Finite (snd (List.last rest (x0, y0)))
      | Finite q => Finite (if Qltb q x0 then y0 else interp_from q x0 y0 rest)
      end
  end.

Definition np_interp (x : ndarray) (xp fp : list Q) : ndarray :=
  lift1 (interp1 xp fp) x.

(** The preconditions on a reference curve: abscissas strictly
    increasing, ordinates non-decreasing, ordinates fractions of one. *)
Fixpoint strictly_increasing (l : list Q) : bool :=
  match l with
  | x :: (y :: _) as t => Qltb x y && strictly_increasing t
  | _ => true
  end.

Fixpoint non_decreasing (l : list Q) : bool :=
  match l with
  | x :: (y :: _) as t => Qle_bool x y && non_decreasing t
  | _ => true
  end.

Definition fractions (l : list Q) : bool :=
  forallb (fun y => Qle_bool 0 y && Qle_bool y 1) l.

(** The sample points after [(x0, y0)] go right, and do not go down. *)
Fixpoint rising (x0 y0 : Q) (pts : list (Q * Q)) : Prop :=
  match pts with
  | [] => True
  | (x1, y1) :: rest => x0 < x1 /\ y0 <= y1 /\ rising x1 y1 rest
  end.

(** The order on floats; a NaN is not comparable. *)
Definition nle (a b : num) : Prop :=
  match a, b with
  | NaN, _ | _, NaN => False
  | NegInf, _ | _, PosInf => True
  | Finite x, Finite y => x <= y
  | _, _ => False
  end.

End Numpy.

(* ================================================================== *)
(** * models/openoil.py *)
(* ================================================================== *)

Module OpenOil.
Import Numpy.

(** The status of an element; the keys of [status_colors]. *)
Inductive Status : Type :=
| initial
| active
| missing_data
| stranded
| evaporated
| dispersed.

(** An element that left the simulation. *)
Definition terminal (s : Status) : bool :=
  match s with
  | initial | active => false
  | _ => true
  end.

(** [Oil]: the element array.  [status], [lon], [lat] and [depth] come
    from [LagrangianArray], the other variables are the ones [Oil] adds. *)
Record Oil : Type := mkOil {
  status : list Status;
  lon : list num;
  lat : list num;
  depth : ndarray;
  mass_oil : ndarray;
  viscosity : ndarray;
  density : ndarray;
  age_seconds : ndarray;
  age_exposure_seconds : ndarray;
  age_emulsion_seconds : ndarray;
  mass_emulsion : ndarray;
  fraction_evaporated : ndarray;
  water_content : ndarray
}.

(** The environment at the elements' positions: [required_variables]. *)
Record Environment : Type := mkEnvironment {
  x_sea_water_velocity : list Q;
  y_sea_water_velocity : list Q;
  sea_surface_wave_significant_height : list Q;
  sea_surface_wave_to_direction : list Q;
  x_wind : list Q;
  y_wind : list Q;
  land_binary_mask : list Q
}.

(** [configspec]. *)
Record Processes : Type := mkProcesses {
  dispersion : bool;
  diffusion : bool;
  evaporation : bool;
  emulsification : bool
}.

Record Drift : Type := mkDrift {
  wind_drift_factor : Q;
  current_uncertainty : Q;
  wind_uncertainty : Q
}.

Record Config : Type := mkConfig {
  processes : Processes;
  drift : Drift
}.

(** [self.model]: the oil properties [__init__] reads from [prop.dat]. *)
Record Model : Type := mkModel {
  fref : list Q;
  tref : list Q;
  wmax : list Q;
  reference_wind : Q;
  reference_thickness : Q
}.

(** What [update] reads of [self] and never writes; [time_step] is
    [self.time_step.total_seconds()]. *)
Record Simulation : Type := mkSimulation {
  config : Config;
  model : Model;
  time_step : Q
}.

(** The variables [update] writes. *)
Inductive Target : Type :=
| var_age_seconds
| var_age_exposure_seconds
| var_fraction_evaporated
| var_age_emulsion_seconds
| var_water_content
| var_mass_oil
| var_sea_surface_wave_significant_height.

(** What [update] does that is visible from outside, in order. *)
Inductive Event : Type :=
| Assign (v : Target)
| Rand (n : nat)
| Normal (loc scale : Q) (n : nat)
| Deactivate (indices : list bool) (reason : Status)
| UpdatePositions (u v : list num).

(** The part of [update] an event belongs to: 0 the age, 1 evaporation,
    2 emulsification, 3 dispersion, 4 the check for land, 5 the moves. *)
Definition phase (e : Event) : nat :=
  match e with
  | Assign var_age_seconds => 0
  | Assign var_age_exposure_seconds | Assign var_fraction_evaporated => 1
  | Rand _ => 1
  | Deactivate _ evaporated => 1
  | Assign var_age_emulsion_seconds | Assign var_water_content => 2
  | Assign var_sea_surface_wave_significant_height | Assign var_mass_oil => 3
  | Deactivate _ _ => 4
  | Normal _ _ _ | UpdatePositions _ _ => 5
  end.

(** An event belongs to a part no later than the part of the other. *)
Definition in_order (e1 e2 : Event) : Prop := (phase e1 <= phase e2)%nat.

Definition is_UpdatePositions (e : Event) : bool :=
  match e with
  | UpdatePositions _ _ => true
  | _ => false
  end.

(** Python's error for a local variable read before it is bound. *)
Inductive Exception : Type :=
| UnboundLocalError (name : string).

Section Update.
Context {lib : NumpyLib}.

(** Everything a call of [update] can change: the elements, the
    environment arrays (they are written in place), the state of
    [np.random], and the events so far (latest last). *)
Record World : Type := mkWorld {
  elements : Oil;
  environment : Environment;
  np_random : RandomState;
  trace : list Event
}.

(** A call returns, or raises; either way the world is the one it left. *)
Inductive Outcome (A : Type) : Type :=
| Returned (a : A) (w : World)
| Raised (e : Exception) (w : World).
Arguments Returned {A} a w.
Arguments Raised {A} e w.

Definition world_of {A} (o : Outcome A) : World :=
  match o with
  | Returned _ w | Raised _ w => w
  end.

Definition M (A : Type) : Type := World -> Outcome A.

#[export] Instance M_ret : MRet M := fun A a w => Returned a w.
#[export] Instance M_bind : MBind M := fun A B f m w =>
  match m w with
  | Returned a w' => f a w'
  | Raised e w' => Raised e w'
  end.

Definition raise {A} (e : Exception) : M A := fun w => Raised e w.

Definition get_elements : M Oil := fun w => Returned (elements w) w.
Definition get_environment : M Environment :=
  fun w => Returned (environment w) w.

(** ** Assignments to the element variables *)

Definition set_status (v : list Status) (o : Oil) : Oil :=
  mkOil v (lon o) (lat o) (depth o) (mass_oil o) (viscosity o) (density o)
        (age_seconds o) (age_exposure_seconds o) (age_emulsion_seconds o)
        (mass_emulsion o) (fraction_evaporated o) (water_content o).
Definition set_lon_lat (x y : list num) (o : Oil) : Oil :=
  mkOil (status o) x y (depth o) (mass_oil o) (viscosity o) (density o)
        (age_seconds o) (age_exposure_seconds o) (age_emulsion_seconds o)
        (mass_emulsion o) (fraction_evaporated o) (water_content o).
Definition set_mass_oil (v : ndarray) (o : Oil) : Oil :=
  mkOil (status o) (lon o) (lat o) (depth o) v (viscosity o) (density o)
        (age_seconds o) (age_exposure_seconds o) (age_emulsion_seconds o)
        (mass_emulsion o) (fraction_evaporated o) (water_content o).
Definition set_age_seconds (v : ndarray) (o : Oil) : Oil :=
  mkOil (status o) (lon o) (lat o) (depth o) (mass_oil o) (viscosity o)
        (density o) v (age_exposure_seconds o) (age_emulsion_seconds o)
        (mass_emulsion o) (fraction_evaporated o) (water_content o).
Definition set_age_exposure_seconds (v : ndarray) (o : Oil) : Oil :=
  mkOil (status o) (lon o) (lat o) (depth o) (mass_oil o) (viscosity o)
        (density o) (age_seconds o) v (age_emulsion_seconds o)
        (mass_emulsion o) (fraction_evaporated o) (water_content o).
Definition set_age_emulsion_seconds (v : ndarray) (o : Oil) : Oil :=
  mkOil (status o) (lon o) (lat o) (depth o) (mass_oil o) (viscosity o)
        (density o) (age_seconds o) (age_exposure_seconds o) v
        (mass_emulsion o) (fraction_evaporated o) (water_content o).
Definition set_fraction_evaporated (v : ndarray) (o : Oil) : Oil :=
  mkOil (status o) (lon o) (lat o) (depth o) (mass_oil o) (viscosity o)
        (density o) (age_seconds o) (age_exposure_seconds o)
        (age_emulsion_seconds o) (mass_emulsion o) v (water_content o).
Definition set_water_content (v : ndarray) (o : Oil) : Oil :=
  mkOil (status o) (lon o) (lat o) (depth o) (mass_oil o) (viscosity o)
        (density o) (age_seconds o) (age_exposure_seconds o)
        (age_emulsion_seconds o) (mass_emulsion o) (fraction_evaporated o) v.
Definition set_sea_surface_wave_significant_height (v : list Q)
  (e : Environment) : Environment :=
  mkEnvironment (x_sea_water_velocity e) (y_sea_water_velocity e) v
                (sea_surface_wave_to_direction e) (x_wind e) (y_wind e)
                (land_binary_mask e).

(** [self.elements.<v> = ...] (or an update in place), and the world
    after it. *)
Definition assigned (v : Target) (f : Oil -> Oil) (w : World) : World :=
  mkWorld (f (elements w)) (environment w) (np_random w)
          (trace w ++ [Assign v]).
Definition assign (v : Target) (f : Oil -> Oil) : M unit :=
  fun w => Returned tt (assigned v f w).

(** An environment array written in place. *)
Definition environment_assigned (v : Target)
  (f : Environment -> Environment) (w : World) : World :=
  mkWorld (elements w) (f (environment w)) (np_random w)
          (trace w ++ [Assign v]).
Definition assign_environment (v : Target)
  (f : Environment -> Environment) : M unit :=
  fun w => Returned tt (environment_assigned v f w).

(** [np.random.rand(n)] and [np.random.normal(loc, scale, n)]: the draw,
    and the world with the random state after it. *)
Definition drawn (e : Event) (g : RandomState) (w : World) : World :=
  mkWorld (elements w) (environment w) g (trace w ++ [e]).
Definition random_rand (n : nat) : M (list Q) := fun w =>
  let draw := np_random_rand n (np_random w) in
  Returned (fst draw) (drawn (Rand n) (snd draw) w).
Definition random_normal (loc scale : Q) (n : nat) : M (list Q) := fun w =>
  let draw := np_random_normal loc scale n (np_random w) in
  Returned (fst draw) (drawn (Normal loc scale n) (snd draw) w).

(** ** The methods of [OpenDriftSimulation] that [update] calls *)

(** Modelled from the spec: [OpenDriftSimulation.num_elements_active] is
    not among the sources.  The arrays of a call hold the active elements,
    one entry each (§6); their number is the length of the element
    array. *)
Definition num_elements_active : M nat :=
  fun w => Returned (length (status (elements w))) w.

(** Modelled from the spec: [OpenDriftSimulation.deactivate_elements] is
    not among the sources.  §4.4: every element where the predicate holds
    takes the reason as its terminal status and takes no part in what
    follows; the operation is idempotent and the first match wins, so an
    element that already left keeps the status it left with. *)
Definition deactivated (indices : list bool) (reason : Status)
  (st : list Status) : list Status :=
  imap (fun i s =>
          if default false (indices !! i) && negb (terminal s)
          then reason else s) st.

Definition elements_deactivated (indices : list bool) (reason : Status)
  (w : World) : World :=
  mkWorld (set_status (deactivated indices reason (status (elements w)))
                      (elements w))
          (environment w) (np_random w)
          (trace w ++ [Deactivate indices reason]).
Definition deactivate_elements (indices : list bool) (reason : Status)
  : M unit :=
  fun w => Returned tt (elements_deactivated indices reason w).

(** Modelled from the spec: [OpenDriftSimulation.update_positions] is not
    among the sources.  §4.5: a call advances the position by
    [(u, v) * Δt] (here in projected coordinates); §3: an element that
    left is excluded from the arithmetic. *)
Definition advanced (dt : Q) (st : list Status) (vel pos : list num)
  : list num :=
  imap (fun i x =>
          match vel !! i, st !! i with
          | Some u, Some s =>
              if terminal s then x else nadd x (nmul u (Finite dt))
          | _, _ => x
          end) pos.

Definition positions_updated (self : Simulation) (u v : list num)
  (w : World) : World :=
  mkWorld (set_lon_lat
             (advanced (time_step self) (status (elements w)) u
                       (lon (elements w)))
             (advanced (time_step self) (status (elements w)) v
                       (lat (elements w)))
             (elements w))
          (environment w) (np_random w) (trace w ++ [UpdatePositions u v]).
Definition update_positions (self : Simulation) (u v : list num) : M unit :=
  fun w => Returned tt (positions_updated self u v w).

(** ** [update], part by part *)

(** [a[mask] += d[mask]], in place. *)
Definition iadd_where (mask : list bool) (d a : list num) : list num :=
  imap (fun i x =>
          match mask !! i, d !! i with
          | Some true, Some dx => nadd x dx
          | _, _ => x
          end) a.

(** [a[mask] = v], in place. *)
Definition fill_where (mask : list bool) (v : num) (a : list num)
  : list num :=
  imap (fun i x => if default false (mask !! i) then v else x) a.

(** [windspeed = np.sqrt(x_wind**2 + y_wind**2)] *)
Definition windspeed_of (env : Environment) : list Q :=
  zip_with (fun x y => np_sqrt (x ^ 2 + y ^ 2)) (x_wind env) (y_wind env).

(** [at_surface = (depth == 0)], made an array when it is a scalar. *)
Definition at_surface_of (n : nat) (depth : ndarray) : list bool :=
  match depth with
  | Scalar d => replicate n (neqb d (Finite 0))
  | Array l => map (fun d => neqb d (Finite 0)) l
  end.

(** [Urel = windspeed/self.model.reference_wind] *)
Definition Urel_of (self : Simulation) (windspeed : list Q) : list num :=
  map (fun w => ndiv (Finite w) (Finite (reference_wind (model self))))
      windspeed.

(** [(self.model.reference_thickness/h)*Urel*self.time_step.total_seconds()]
    with [h = 2]. *)
Definition delta_exposure_seconds_of (self : Simulation) (Urel : list num)
  : list num :=
  let h := 2 in
  map (fun u =>
         nmul (nmul (ndiv (Finite (reference_thickness (model self)))
                          (Finite h)) u)
              (Finite (time_step self)))
      Urel.

(** The new [age_exposure_seconds]: a scalar gets the whole increment
    added, an array gets it at the surface only. *)
Definition exposed (at_surface : list bool) (delta : list num)
  (age : ndarray) : list num :=
  match age with
  | Scalar a => map (nadd a) delta
  | Array l => iadd_where at_surface delta l
  end.

(** [(fraction_evaporated - previous) / (1 - previous)], then
    [evaporation_probability[~at_surface] = 0]. *)
Definition evaporation_probability_of (at_surface : list bool)
  (fraction_evaporated : list num) (previous : ndarray) : list num :=
  fill_where (map negb at_surface) (Finite 0)
    (lift2_l ndiv
       (lift2_l nsub fraction_evaporated previous)
       (lift1 (nsub (Finite 1)) previous)).

(** Lines 126-163.  Returns [Urel], which stays bound afterwards. *)
Definition evaporation_block (self : Simulation) (windspeed : list Q)
  : M (list num) :=
  o ← get_elements;
  let fraction_evaporated_previous := fraction_evaporated o in
  n ← num_elements_active;
  let at_surface := at_surface_of n (depth o) in
  let Urel := Urel_of self windspeed in
  let delta_exposure_seconds := delta_exposure_seconds_of self Urel in
  let age := exposed at_surface delta_exposure_seconds
                     (age_exposure_seconds o) in
  assign var_age_exposure_seconds (set_age_exposure_seconds (Array age));;
  let fraction :=
    map (interp1 (tref (model self)) (fref (model self))) age in
  assign var_fraction_evaporated (set_fraction_evaporated (Array fraction));;
  let evaporation_probability :=
    evaporation_probability_of at_surface fraction
                               fraction_evaporated_previous in
  n ← num_elements_active;
  draw ← random_rand n;
  deactivate_elements
    (zip_with ngtb evaporation_probability (map Finite draw)) evaporated;;
  mret Urel.

(** The values of the local variables of the evaporation part, as
    functions of the elements at its entry. *)
Definition at_surface_in (o : Oil) : list bool :=
  at_surface_of (length (status o)) (depth o).

Definition age_exposure_after (self : Simulation) (windspeed : list Q)
  (o : Oil) : list num :=
  exposed (at_surface_in o)
          (delta_exposure_seconds_of self (Urel_of self windspeed))
          (age_exposure_seconds o).

Definition fraction_after (self : Simulation) (windspeed : list Q)
  (o : Oil) : list num :=
  map (interp1 (tref (model self)) (fref (model self)))
      (age_exposure_after self windspeed o).

Definition evaporation_probability (self : Simulation)
  (windspeed : list Q) (o : Oil) : list num :=
  evaporation_probability_of (at_surface_in o)
    (fraction_after self windspeed o) (fraction_evaporated o).

(** Lines 167-174.  [Urel] is the local variable the evaporation part
    binds; it is unbound when that part did not run. *)
Definition emulsification_block (self : Simulation)
  (Urel : option (list num)) : M unit :=
  match Urel with
  | None => raise (UnboundLocalError "Urel")
  | Some Urel =>
      assign var_age_emulsion_seconds (fun o =>
        set_age_emulsion_seconds
          (lift2 nadd (age_emulsion_seconds o)
             (Array (map (fun u => nmul u (Finite (time_step self))) Urel)))
          o);;
      assign var_water_content (fun o =>
        set_water_content
          (np_interp (age_emulsion_seconds o)
                     (tref (model self)) (wmax (model self)))
          o)
  end.

(** [wave_significant_height[wave_significant_height==0] =
     0.0246*windspeed[wave_significant_height==0]**2], in place. *)
Definition wind_waves (windspeed height : list Q) : list Q :=
  imap (fun i h =>
          if Qeq_bool h 0
          then match windspeed !! i with
               | Some w => 0.0246 * w ^ 2
               | None => h
               end
          else h) height.

(** [3.9E-8] *)
Definition v_entrain : Q := 0.000000039.
Definition sea_water_density : Q := 1028.
Definition fraction_breaking_waves : Q := 0.02.

(** [np.power(0.0034*sea_water_density*9.81*wave_significant_height**2,
     0.57) * fraction_breaking_waves] *)
Definition c_disp_of (wave_significant_height : list Q) : list Q :=
  map (fun h =>
         np_power (0.0034 * sea_water_density * 9.81 * h ^ 2) 0.57
         * fraction_breaking_waves)
      wave_significant_height.

(** [2400.0 * np.exp(-73.682*np.sqrt(viscosity/density))] *)
Definition C_Roy_of (viscosity density : ndarray) : ndarray :=
  lift1 (fun r => nmul (Finite 2400)
                       (nexp (nmul (Finite (-73.682)) (nsqrt r))))
        (lift2 ndiv viscosity density).

(** [C_Roy * c_disp * v_entrain / self.elements.density] *)
Definition q_disp_of (o : Oil) (wave_significant_height : list Q)
  : ndarray :=
  lift2 ndiv
    (lift2 nmul
       (lift2 nmul (C_Roy_of (viscosity o) (density o))
                   (Array (map Finite (c_disp_of wave_significant_height))))
       (Scalar (Finite v_entrain)))
    (density o).

(** [q_disp * self.time_step.total_seconds() * self.elements.density] *)
Definition oil_mass_loss_of (self : Simulation) (o : Oil)
  (wave_significant_height : list Q) : ndarray :=
  lift2 nmul
    (lift2 nmul (q_disp_of o wave_significant_height)
                (Scalar (Finite (time_step self))))
    (density o).

(** Lines 179-203. *)
Definition dispersion_block (self : Simulation) (windspeed : list Q)
  : M unit :=
  assign_environment var_sea_surface_wave_significant_height (fun env =>
    set_sea_surface_wave_significant_height
      (wind_waves windspeed (sea_surface_wave_significant_height env)) env);;
  env ← get_environment;
  let wave_significant_height := sea_surface_wave_significant_height env in
  assign var_mass_oil (fun o =>
    set_mass_oil
      (lift2 nsub (mass_oil o)
                  (oil_mass_loss_of self o wave_significant_height))
      o).

(** [0*self.environment.x_wind] *)
Definition zero_like (a : list Q) : list Q := map (fun x => 0 * x) a.

(** Lines 246-270. *)
Definition diffusion_block (self : Simulation) (wind_drift_factor : Q)
  : M unit :=
  (* Current *)
  let std_current_comp := current_uncertainty (drift (config self)) in
  sigma ← (if Qltb 0 std_current_comp
           then n ← num_elements_active;
                sigma_u ← random_normal 0 std_current_comp n;
                n ← num_elements_active;
                sigma_v ← random_normal 0 std_current_comp n;
                mret (sigma_u, sigma_v)
           else env ← get_environment;
                mret (zero_like (x_wind env), zero_like (x_wind env)));
  update_positions self (map Finite (fst sigma)) (map Finite (snd sigma));;
  (* Wind *)
  let std_wind_comp := wind_uncertainty (drift (config self)) in
  sigma ← (if Qltb 0 wind_drift_factor && Qltb 0 std_wind_comp
           then n ← num_elements_active;
                sigma_u ←
                  random_normal 0 (std_wind_comp * wind_drift_factor) n;
                n ← num_elements_active;
                sigma_v ←
                  random_normal 0 (std_wind_comp * wind_drift_factor) n;
                mret (sigma_u, sigma_v)
           else env ← get_environment;
                mret (zero_like (x_wind env), zero_like (x_wind env)));
  update_positions self (map Finite (fst sigma)) (map Finite (snd sigma)).

(** [OpenOil.update]: update positions and properties of oil particles. *)
Definition update (self : Simulation) : M unit :=
  assign var_age_seconds (fun o =>
    set_age_seconds
      (lift2 nadd (age_seconds o) (Scalar (Finite (time_step self)))) o);;
  env ← get_environment;
  let windspeed := windspeed_of env in
  (* Evaporation *)
  Urel ← (if evaporation (processes (config self))
          then Urel ← evaporation_block self windspeed; mret (Some Urel)
          else mret None);
  (* Emulsification *)
  (if emulsification (processes (config self))
   then emulsification_block self Urel
   else mret tt);;
  (* Dispersion *)
  (if dispersion (processes (config self))
   then dispersion_block self windspeed
   else mret tt);;
  (* Deactivate elements on land *)
  env ← get_environment;
  deactivate_elements
    (map (fun m => Qeq_bool m 1) (land_binary_mask env)) stranded;;
  (* Simply move particles with ambient current *)
  env ← get_environment;
  update_positions self (map Finite (x_sea_water_velocity env))
                        (map Finite (y_sea_water_velocity env));;
  (* Wind drag *)
  let wind_drift_factor := wind_drift_factor (drift (config self)) in
  env ← get_environment;
  update_positions self
    (map (fun x => Finite (x * wind_drift_factor)) (x_wind env))
    (map (fun y => Finite (y * wind_drift_factor)) (y_wind env));;
  (* Uncertainty / diffusion *)
  if diffusion (processes (config self))
  then diffusion_block self wind_drift_factor
  else mret tt.

(** ** The worlds a call goes through

    What each part leaves behind, written as a function of the world it
    starts from.  [OpenOilFacts.update_returned] shows that [update] ends
    in [updated]. *)

Definition aged (self : Simulation) (w : World) : World :=
  assigned var_age_seconds (fun o =>
    set_age_seconds
      (lift2 nadd (age_seconds o) (Scalar (Finite (time_step self)))) o) w.

(** The draw of the evaporation part, and the elements it deactivates. *)
Definition evaporation_draw (w : World) : list Q * RandomState :=
  np_random_rand (length (status (elements w))) (np_random w).

Definition evaporated_now (self : Simulation) (windspeed : list Q)
  (w : World) : list bool :=
  zip_with ngtb (evaporation_probability self windspeed (elements w))
           (map Finite (fst (evaporation_draw w))).

Definition after_evaporation (self : Simulation) (windspeed : list Q)
  (w : World) : World :=
  elements_deactivated (evaporated_now self windspeed w) evaporated
    (drawn (Rand (length (status (elements w)))) (snd (evaporation_draw w))
       (assigned var_fraction_evaporated
          (set_fraction_evaporated
             (Array (fraction_after self windspeed (elements w))))
          (assigned var_age_exposure_seconds
             (set_age_exposure_seconds
                (Array (age_exposure_after self windspeed (elements w))))
             w))).

Definition after_emulsification (self : Simulation) (Urel : list num)
  (w : World) : World :=
  assigned var_water_content (fun o =>
    set_water_content
      (np_interp (age_emulsion_seconds o)
                 (tref (model self)) (wmax (model self))) o)
    (assigned var_age_emulsion_seconds (fun o =>
       set_age_emulsion_seconds
         (lift2 nadd (age_emulsion_seconds o)
            (Array (map (fun u => nmul u (Finite (time_step self))) Urel)))
         o) w).

Definition after_dispersion (self : Simulation) (windspeed : list Q)
  (w : World) : World :=
  let height :=
    wind_waves windspeed
               (sea_surface_wave_significant_height (environment w)) in
  assigned var_mass_oil (fun o =>
    set_mass_oil
      (lift2 nsub (mass_oil o) (oil_mass_loss_of self o height)) o)
    (environment_assigned var_sea_surface_wave_significant_height
       (set_sea_surface_wave_significant_height height) w).

(** The world when the elements on land are looked for. *)
Definition weathered (self : Simulation) (w : World) : World :=
  let windspeed := windspeed_of (environment w) in
  let w0 := aged self w in
  let w1 := if evaporation (processes (config self))
            then after_evaporation self windspeed w0 else w0 in
  let w2 := if emulsification (processes (config self))
            then after_emulsification self (Urel_of self windspeed) w1
            else w1 in
  if dispersion (processes (config self))
  then after_dispersion self windspeed w2 else w2.

Definition on_land (w : World) : list bool :=
  map (fun m => Qeq_bool m 1) (land_binary_mask (environment w)).

Definition after_stranding (w : World) : World :=
  elements_deactivated (on_land w) stranded w.

Definition after_drift (self : Simulation) (w : World) : World :=
  let factor := wind_drift_factor (drift (config self)) in
  positions_updated self
    (map (fun x => Finite (x * factor)) (x_wind (environment w)))
    (map (fun y => Finite (y * factor)) (y_wind (environment w)))
    (positions_updated self
       (map Finite (x_sea_water_velocity (environment w)))
       (map Finite (y_sea_water_velocity (environment w))) w).

(** One stochastic displacement: Gaussian noise of the given standard
    deviation, or, when there is none, the zero displacement. *)
Definition perturbed (self : Simulation) (scale : option Q) (w : World)
  : World :=
  match scale with
  | Some s =>
      let n := length (status (elements w)) in
      let sigma_u := np_random_normal 0 s n (np_random w) in
      let w1 := drawn (Normal 0 s n) (snd sigma_u) w in
      let sigma_v := np_random_normal 0 s n (np_random w1) in
      positions_updated self (map Finite (fst sigma_u))
                        (map Finite (fst sigma_v))
                        (drawn (Normal 0 s n) (snd sigma_v) w1)
  | None =>
      positions_updated self (map Finite (zero_like (x_wind (environment w))))
                        (map Finite (zero_like (x_wind (environment w)))) w
  end.


Definition current_noise (self : Simulation) : option Q :=
  let std_current_comp := current_uncertainty (drift (config self)) in
  if Qltb 0 std_current_comp then Some std_current_comp else None.

Definition wind_noise (self : Simulation) : option Q :=
  let wind_drift_factor := wind_drift_factor (drift (config self)) in
  let std_wind_comp := wind_uncertainty (drift (config self)) in
  if Qltb 0 wind_drift_factor && Qltb 0 std_wind_comp
  then Some (std_wind_comp * wind_drift_factor) else None.

Definition after_diffusion (self : Simulation) (w : World) : World :=
  perturbed self (wind_noise self) (perturbed self (current_noise self) w).

Definition updated (self : Simulation) (w : World) : World :=
  let w5 := after_drift self (after_stranding (weathered self w)) in
  if diffusion (processes (config self)) then after_diffusion self w5
  else w5.

(** [update] runs to its end unless emulsification is on and evaporation
    off. *)
Definition completes (self : Simulation) : Prop :=
  evaporation (processes (config self)) = true
  \/ emulsification (processes (config self)) = false.

End Update.

Arguments Returned {lib A} a w.
Arguments Raised {lib A} e w.

End OpenOil.

(* ================================================================== *)
(** * opendrift/readers/operators/numops.py *)
(* ================================================================== *)

Module Numops.
Import Numpy.

Section Reader.
(** The arguments a reader is asked with. *)
Context {Args : Type}.

(** [BaseReader], as far as [Combined] uses it: the call that returns the
    two dictionaries [env] and [env_profiles], from variable name to
    array. *)
Record BaseReader : Type := mkBaseReader {
  _get_variables_interpolated_ :
    Args -> gmap string ndarray * gmap string ndarray
}.

(** A reader combined with a number. *)
Record Combined : Type := mkCombined {
  n : num;
  r : BaseReader;
  op : ndarray -> ndarray
}.

(** [Combined(n, r, lambda x: n + x)] *)
Definition add (n : num) (r : BaseReader) : Combined :=
  mkCombined n r (fun x => lift2 nadd (Scalar n) x).

(** [Combined(n, r, lambda x: n * x)] *)
Definition mul (n : num) (r : BaseReader) : Combined :=
  mkCombined n r (fun x => lift2 nmul (Scalar n) x).

(** [Combined(n, r, lambda x: x - n)] *)
Definition sub (n : num) (r : BaseReader) : Combined :=
  mkCombined n r (fun x => lift2 nsub x (Scalar n)).

(** [Combined(n, r, lambda x: x / n)] *)
Definition div (n : num) (r : BaseReader) : Combined :=
  mkCombined n r (fun x => lift2 ndiv x (Scalar n)).

(** The names a combined reader leaves alone. *)
Definition coordinates : list string := ["x"; "y"; "time"]%string.

(** [env[var] = self.op(env[var])] *)
Definition assign_op (op : ndarray -> ndarray) (env : gmap string ndarray)
  (var : string) : gmap string ndarray :=
  match env !! var with
  | Some v => <[var := op v]> env
  | None => env
  end.

(** [variables = [var for var in env.keys() if var not in
    ['x', 'y', 'time']]] then [for var in variables: env[var] =
    self.op(env[var])].  The keys come in the order of the map; they are
    distinct, so the order does not show in the result. *)
Definition apply_op (op : ndarray -> ndarray) (env : gmap string ndarray)
  : gmap string ndarray :=
  let variables :=
    filter (fun var => var ∉ coordinates) (map fst (map_to_list env)) in
  foldl (assign_op op) env variables.

Definition Combined_get_variables_interpolated (self : Combined)
  (args : Args) : gmap string ndarray * gmap string ndarray :=
  let '(env, env_profiles) := _get_variables_interpolated_ (r self) args in
  (apply_op (op self) env, apply_op (op self) env_profiles).

(** What the result of a combined reader is, for an operation [f] on
    numbers: the coordinates are those of the wrapped reader, every other
    variable is the wrapped reader's with [f] applied to its entries. *)
Definition maps_variables (f : num -> num) (self : Combined) (args : Args)
  : Prop :=
  let env := fst (_get_variables_interpolated_ (r self) args) in
  let env_profiles := snd (_get_variables_interpolated_ (r self) args) in
  let env' := fst (Combined_get_variables_interpolated self args) in
  let env_profiles' := snd (Combined_get_variables_interpolated self args) in
  forall var : string,
    (var ∈ coordinates ->
     env' !! var = env !! var
     /\ env_profiles' !! var = env_profiles !! var)
    /\ (var ∉ coordinates ->
        env' !! var = lift1 f <$> env !! var
        /\ env_profiles' !! var = lift1 f <$> env_profiles !! var).

End Reader.

Arguments BaseReader : clear implicits.
Arguments Combined : clear implicits.

End Numops.

(* ================================================================== *)
(** * Worked inputs *)
(* ================================================================== *)

Module Scenario.
Import Numpy OpenOil.

(** A stand-in for numpy in the worked examples: the square root is the
    integer square root of numerator times denominator over the
    denominator (exact on the squares of integers), the exponential its
    Taylor polynomial of degree two (positive everywhere), the power
    rounds the exponent down to an integer, and the random source replays
    a tape of prepared draws (zero when the tape is over). *)
Definition tape_draw (n : nat) (tape : list Q) : list Q * list Q :=
  (take n (tape ++ replicate n 0), drop n tape).

#[export] Instance tape_lib : NumpyLib := {|
  np_sqrt := fun x => Z.sqrt (Qnum x * Zpos (Qden x)) # Qden x;
  np_exp := fun x => 1 + x + x * x / 2;
  np_power := fun x y => x ^ Qfloor y;
  RandomState := list Q;
  np_random_rand := tape_draw;
  np_random_normal := fun loc scale n tape =>
    let '(z, tape') := tape_draw n tape in
    (map (fun z => loc + scale * z) z, tape')
|}.

(** Every process on, the defaults of [configspec]. *)
Definition all_on : Processes := mkProcesses true true true true.
Definition default_drift : Drift := mkDrift 0.02 0.1 1.

(** A reference curve that reaches complete evaporation after two hours
    of exposure, with reference wind 5 m/s and reference thickness 2 mm. *)
Definition curve : Model :=
  mkModel [0; 0.5; 1] [0; 3600; 7200] [0; 0.4; 0.8] 5 2.

Definition sim (p : Processes) : Simulation :=
  mkSimulation (mkConfig p default_drift) curve 3600.

(** One element with the default oil properties; the arguments are the
    ones the examples vary. *)
Definition one_element (depth : num) (mass : num)
  (age_exposure fraction : ndarray) : Oil :=
  mkOil [active] [Finite 5] [Finite 60] (Array [depth])
        (Array [mass]) (Scalar (Finite 0.5)) (Scalar (Finite 800))
        (Scalar (Finite 0)) age_exposure (Scalar (Finite 0))
        (Scalar (Finite 0)) fraction (Scalar (Finite 0)).

(** Wind (5, 0) m/s, no current, waves of [height], land or sea. *)
Definition weather (height land : Q) : Environment :=
  mkEnvironment [0] [0] [height] [0] [5] [0] [land].

Definition world (o : Oil) (e : Environment) (tape : list Q) : World :=
  mkWorld o e tape [].

(** One element at the surface that has evaporated completely: two hours
    of exposure behind it, [fraction_evaporated] 1. *)
Definition fully_evaporated : World :=
  world (one_element (Finite 0) (Finite 1000)
                     (Array [Finite 7200]) (Array [Finite 1]))
        (weather 2 0) [0.3].

(** Emulsification on, evaporation off. *)
Definition no_evaporation : Processes := mkProcesses true true false true.

(** Two fresh elements, the first at the surface, the second ten metres
    down; the exposure age is still the scalar default. *)
Definition two_depths : World :=
  world (mkOil [active; active] [Finite 5; Finite 5] [Finite 60; Finite 60]
               (Array [Finite 0; Finite 10])
               (Scalar (Finite 1)) (Scalar (Finite 0.5)) (Scalar (Finite 800))
               (Scalar (Finite 0)) (Scalar (Finite 0)) (Scalar (Finite 0))
               (Scalar (Finite 0)) (Scalar (Finite 0)) (Scalar (Finite 0)))
        (mkEnvironment [0; 0] [0; 0] [2; 2] [0; 0] [5; 5] [0; 0] [0; 0])
        [0.9; 0.9].

(** A fresh element at the surface, on land; the draw is 0.3. *)
Definition on_the_shore : World :=
  world (one_element (Finite 0) (Finite 1000)
                     (Array [Finite 0]) (Array [Finite 0]))
        (weather 2 1) [0.3].

(** The scenario of §8: one element of 1000 kg, viscosity 0.5, density
    800, waves of 2 m, wind (5, 0) m/s, a time step of 3600 s. *)
Definition spill (mass : Q) : World :=
  world (one_element (Finite 0) (Finite mass)
                     (Array [Finite 0]) (Array [Finite 0]))
        (weather 2 0) [0.9].

(** The same element on a sea without waves. *)
Definition calm : World :=
  world (one_element (Finite 0) (Finite 1000)
                     (Array [Finite 0]) (Array [Finite 0]))
        (weather 0 0) [0.9].

End Scenario.

(* ================================================================== *)
(** * models/openoil.py: the oil properties and the seeding *)
(* ================================================================== *)

Module OilProperties.
Import Numpy OpenOil.

(** [oilprop], the array [np.loadtxt] reads from [prop.dat]: its rows.
    The number of columns is the length of the first row. *)
Definition columns (oilprop : list (list Q)) : nat :=
  match oilprop with
  | [] => 0
  | row :: _ => length row
  end.

(** [oilprop[i, j]]; [None] is numpy's [IndexError]. *)
Definition entry (oilprop : list (list Q)) (i j : nat) : option Q :=
  row ← oilprop !! i; row !! j.

(** [oilprop[1:, j]]: column [j] of the rows after the first.  The index
    is checked against the number of columns even when no row is left. *)
Definition column_after_first (oilprop : list (list Q)) (j : nat)
  : option (list Q) :=
  if decide (j < columns oilprop)%nat
  then mapM (fun row : list Q => row !! j) (tail oilprop)
  else None.

(** [np.loadtxt] gives a two-dimensional array for a file of at least
    two rows and two columns; it squeezes a file of one row or one column
    to a one-dimensional array (an empty file to an empty one), on which
    a subscript with two indices raises [IndexError]. *)
Definition two_dimensional (oilprop : list (list Q)) : bool :=
  (2 <=? length oilprop)%nat && (2 <=? columns oilprop)%nat.

(** The assignments to [self.model] in [OpenOil.__init__], from the rows
    of the property file; [None] is the [IndexError] of a subscript. *)
Definition init_model (oilprop : list (list Q)) : option Model :=
  if two_dimensional oilprop then
    percent ← column_after_first oilprop 1;
    hours ← column_after_first oilprop 0;
    water ← column_after_first oilprop 3;
    wind ← entry oilprop 0 1;
    thickness ← entry oilprop 0 0;
    Some (mkModel (map (fun p => p * 0.01) percent)
                  (map (fun h => h * 3600) hours)
                  water wind thickness)
  else None.

(** Every row has as many entries as the first; [np.loadtxt] rejects a
    file where they differ. *)
Definition rectangular (oilprop : list (list Q)) : Prop :=
  Forall (fun row => length row = columns oilprop) oilprop.

Definition percentages (l : list Q) : bool :=
  forallb (fun p => Qle_bool 0 p && Qle_bool p 100) l.

End OilProperties.

Module Gml.

(** [a[i]] with Python's negative indices; [None] is [IndexError]. *)
Definition getitem (a : list Q) (i : Z) : option Q :=
  let n := Z.of_nat (length a) in
  if ((0 <=? i) && (i <? n))%Z then a !! Z.to_nat i
  else if ((- n <=? i) && (i <? 0))%Z then a !! Z.to_nat (n + i)
  else None.

(** [xrange(-1, len(x)-1)] *)
Definition indices (n : nat) : list Z :=
  map (fun k => (Z.of_nat k - 1)%Z) (seq 0 n).

(** [x[i] * (y[i+1] - y[i-1])] *)
Definition term (x y : list Q) (i : Z) : option Q :=
  xi ← getitem x i;
  after ← getitem y (i + 1);
  before ← getitem y (i - 1);
  Some (xi * (after - before)).

(** The loop [for i in xrange(-1, len(x)-1): area_of_polygon += ...],
    from the value [area] on. *)
Definition accumulate (x y : list Q) (area : option Q) (range : list Z)
  : option Q :=
  foldl (fun area i => a ← area; t ← term x y i; Some (a + t)) area range.

(** The area of the polygon with the vertices [(x[i], y[i])], as
    [seed_from_gml] computes it for each slick. *)
Definition area_of_polygon (x y : list Q) : option Q :=
  area ← accumulate x y (Some 0) (indices (length x));
  Some (Qabs area / 2).

(** The value at an index, where there is one. *)
Definition at_index (a : list Q) (i : Z) : Q := default 0 (getitem a i).

Definition Qsum (l : list Q) : Q := foldr Qplus 0 l.

End Gml.

Module Draws.
Import OpenOil.

(** The events that draw from the random source. *)
Definition is_draw (e : Event) : bool :=
  match e with
  | Rand _ | Normal _ _ _ => true
  | _ => false
  end.

End Draws.

(* ================================================================== *)
(** * More worked inputs *)
(* ================================================================== *)

Module MoreInputs.
Import Numpy OpenOil Scenario.

(** An oil property file: the reference thickness and wind in the first
    row, then hours, percent evaporated, a column the model does not
    read, and the water content. *)
Definition prop_dat : list (list Q) :=
  [[2; 5; 0; 0];
   [0; 0; 0; 0];
   [1; 50; 0; 0.4];
   [2; 100; 0; 0.8]].

(** Two elements over open sea, the second ten metres down, with arrays
    for every property the evaporation reads. *)
Definition submerged : World :=
  world (mkOil [active; active] [Finite 5; Finite 5] [Finite 60; Finite 60]
               (Array [Finite 0; Finite 10])
               (Array [Finite 1000; Finite 1000])
               (Scalar (Finite 0.5)) (Scalar (Finite 800))
               (Scalar (Finite 0))
               (Array [Finite 0; Finite 0]) (Array [Finite 0; Finite 0])
               (Scalar (Finite 0))
               (Array [Finite 0; Finite 0]) (Array [Finite 0; Finite 0]))
        (mkEnvironment [0; 0] [0; 0] [2; 2] [0; 0] [5; 5] [0; 0] [0; 0])
        [0.9; 0.9].

(** Evaporation off, and emulsification with it. *)
Definition only_dispersion : Processes := mkProcesses true true false false.

(** Everything but the dispersion. *)
Definition no_dispersion : Processes := mkProcesses false true true true.

(** Dispersion and a diffusion without noise: both uncertainties 0. *)
Definition quiet : Simulation :=
  mkSimulation (mkConfig only_dispersion (mkDrift 0.02 0 0)) curve 3600.

End MoreInputs.

(* ================================================================== *)
(** * Facts on numbers, arrays and interpolation *)
(* ================================================================== *)

Module NumpyFacts.
Import Numpy.

Lemma Qltb_lt (x y : Q) : Qltb x y = true <-> x < y.
Proof.
  unfold Qltb. rewrite negb_true_iff. split.
  - intros H. apply Qnot_le_lt. intros Hle.
    apply Qle_bool_iff in Hle. congruence.
  - intros H. destruct (Qle_bool y x) eqn:E; [|reflexivity].
    apply Qle_bool_iff in E. lra.
Qed.

Lemma Qltb_ge (x y : Q) : Qltb x y = false <-> y <= x.
Proof.
  unfold Qltb. rewrite negb_false_iff. apply Qle_bool_iff.
Qed.

Lemma Qeq_bool_false (x y : Q) : Qeq_bool x y = false <-> ~ x == y.
Proof.
  split.
  - intros H E. apply Qeq_bool_iff in E. congruence.
  - intros H. destruct (Qeq_bool x y) eqn:E; [|reflexivity].
    apply Qeq_bool_iff in E. contradiction.
Qed.

(** Entry by entry, a broadcast operation is the operation. *)
Lemma item_lift2 (f : num -> num -> num) (a b : ndarray) (i : nat) :
  item (lift2 f a b) i = x ← item a i; y ← item b i; Some (f x y).
Proof.
  destruct a as [x|l], b as [y|k]; simpl.
  - reflexivity.
  - rewrite list_lookup_fmap. destruct (k !! i); reflexivity.
  - rewrite list_lookup_fmap. destruct (l !! i); reflexivity.
  - apply lookup_zip_with.
Qed.

Lemma item_lift1 (f : num -> num) (a : ndarray) (i : nat) :
  item (lift1 f a) i = f <$> item a i.
Proof.
  destruct a as [x|l]; simpl; [reflexivity|]. apply list_lookup_fmap.
Qed.

Lemma lookup_lift2_l (f : num -> num -> num) (l : list num) (b : ndarray)
  (i : nat) :
  lift2_l f l b !! i = x ← l !! i; y ← item b i; Some (f x y).
Proof.
  destruct b as [y|k]; simpl.
  - rewrite list_lookup_fmap. destruct (l !! i); reflexivity.
  - apply lookup_zip_with.
Qed.

(** ** The order on floats *)

Lemma nle_refl (a : num) : a <> NaN -> nle a a.
Proof. destruct a; simpl; intros; try lra; try congruence; exact I. Qed.

Lemma nle_nadd_nonneg (a : num) (d : Q) :
  a <> NaN -> 0 <= d -> nle a (nadd a (Finite d)).
Proof. destruct a; simpl; intros; try lra; try congruence; exact I. Qed.

Lemma nadd_finite_not_nan (a : num) (d : Q) :
  a <> NaN -> nadd a (Finite d) <> NaN.
Proof. destruct a; simpl; congruence. Qed.

(** ** Interpolation *)

Lemma rising_zip (xs ys : list Q) (x0 y0 : Q) :
  strictly_increasing (x0 :: xs) = true ->
  non_decreasing (y0 :: ys) = true ->
  rising x0 y0 (zip xs ys).
Proof.
  revert ys x0 y0. induction xs as [|x1 xs IH]; intros [|y1 ys] x0 y0 Hx Hy;
    simpl; try exact I.
  simpl in Hx, Hy.
  apply andb_true_iff in Hx as [Hx Hxs]. apply andb_true_iff in Hy as [Hy Hys].
  apply Qltb_lt in Hx. apply Qle_bool_iff in Hy. auto.
Qed.

Lemma segment_between (lo hi x0 x1 y0 y1 x : Q) :
  x0 < x1 -> x0 <= x -> x < x1 -> lo <= y0 <= hi -> lo <= y1 <= hi ->
  lo <= (y1 - y0) / (x1 - x0) * (x - x0) + y0 <= hi.
Proof.
  intros Hd H0 H1 Hy0 Hy1.
  set (t := (x - x0) / (x1 - x0)).
  assert (Ht : 0 <= t <= 1).
  { unfold t. split.
    - apply Qle_shift_div_l; lra.
    - apply Qle_shift_div_r; lra. }
  assert (E : (y1 - y0) / (x1 - x0) * (x - x0) + y0 == y0 + (y1 - y0) * t).
  { unfold t. field. lra. }
  rewrite E. split; nra.
Qed.

Lemma segment_mono (x0 x1 y0 y1 x x' : Q) :
  x0 < x1 -> y0 <= y1 -> x <= x' ->
  (y1 - y0) / (x1 - x0) * (x - x0) + y0
  <= (y1 - y0) / (x1 - x0) * (x' - x0) + y0.
Proof.
  intros Hd Hy Hx.
  assert (Hs : 0 <= (y1 - y0) / (x1 - x0)) by (apply Qle_shift_div_l; lra).
  nra.
Qed.

(** The interpolant stays between the bounds of the ordinates. *)
Lemma interp_from_between (lo hi x : Q) (pts : list (Q * Q)) :
  forall x0 y0,
    rising x0 y0 pts -> x0 <= x -> lo <= y0 <= hi ->
    Forall (fun p => lo <= snd p <= hi) pts ->
    lo <= interp_from x x0 y0 pts <= hi.
Proof.
  induction pts as [|[x1 y1] rest IH]; intros x0 y0 Hr Hx Hy Hall; simpl.
  - exact Hy.
  - destruct Hr as (Hlt & Hle & Hr).
    apply Forall_cons in Hall as [Hy1 Hall]. simpl in Hy1.
    destruct (Qltb x x1) eqn:E.
    + apply Qltb_lt in E. apply segment_between; assumption.
    + apply Qltb_ge in E. apply IH; assumption.
Qed.

(** It is at least the ordinate it starts from. *)
Lemma interp_from_ge (x : Q) (pts : list (Q * Q)) :
  forall x0 y0, rising x0 y0 pts -> x0 <= x -> y0 <= interp_from x x0 y0 pts.
Proof.
  induction pts as [|[x1 y1] rest IH]; intros x0 y0 Hr Hx; simpl.
  - lra.
  - destruct Hr as (Hlt & Hle & Hr). destruct (Qltb x x1) eqn:E.
    + apply Qltb_lt in E.
      apply (segment_between y0 y1 x0 x1 y0 y1 x); try assumption; lra.
    + apply Qltb_ge in E. specialize (IH x1 y1 Hr E). lra.
Qed.

Lemma last_cons_default {A} (l : list A) :
  forall a d, List.last (a :: l) d = List.last l a.
Proof.
  induction l as [|b l IH]; intros a d; [reflexivity|].
  change (List.last (a :: b :: l) d) with (List.last (b :: l) d).
  rewrite (IH b d), (IH b a). reflexivity.
Qed.

Lemma Forall_last {A} (P : A -> Prop) (l : list A) (d : A) :
  Forall P (d :: l) -> P (List.last l d).
Proof.
  revert d. induction l as [|b l IH]; intros d H.
  - apply Forall_cons in H as [H _]. exact H.
  - apply Forall_cons in H as [_ H]. rewrite last_cons_default.
    apply IH. exact H.
Qed.

Lemma last_rising_ge (pts : list (Q * Q)) :
  forall x0 y0, rising x0 y0 pts -> y0 <= snd (List.last pts (x0, y0)).
Proof.
  induction pts as [|[x1 y1] rest IH]; intros x0 y0 Hr.
  - simpl. lra.
  - destruct Hr as (Hlt & Hle & Hr). specialize (IH x1 y1 Hr).
    rewrite last_cons_default. lra.
Qed.

(** It is at most the last ordinate. *)
Lemma interp_from_le_last (x : Q) (pts : list (Q * Q)) :
  forall x0 y0,
    rising x0 y0 pts -> x0 <= x ->
    interp_from x x0 y0 pts <= snd (List.last pts (x0, y0)).
Proof.
  induction pts as [|[x1 y1] rest IH]; intros x0 y0 Hr Hx.
  - simpl. lra.
  - destruct Hr as (Hlt & Hle & Hr).
    rewrite last_cons_default. simpl. destruct (Qltb x x1) eqn:E.
    + apply Qltb_lt in E.
      pose proof (last_rising_ge rest x1 y1 Hr).
      pose proof (segment_between y0 y1 x0 x1 y0 y1 x Hlt Hx E).
      lra.
    + apply Qltb_ge in E. apply IH; assumption.
Qed.

(** It does not decrease with the abscissa. *)
Lemma interp_from_mono (x x' : Q) (pts : list (Q * Q)) :
  forall x0 y0,
    rising x0 y0 pts -> x0 <= x -> x <= x' ->
    interp_from x x0 y0 pts <= interp_from x' x0 y0 pts.
Proof.
  induction pts as [|[x1 y1] rest IH]; intros x0 y0 Hr Hx Hxx; simpl.
  - lra.
  - destruct Hr as (Hlt & Hle & Hr).
    destruct (Qltb x x1) eqn:E, (Qltb x' x1) eqn:E'.
    + apply segment_mono; assumption.
    + apply Qltb_lt in E. apply Qltb_ge in E'.
      pose proof (segment_between y0 y1 x0 x1 y0 y1 x Hlt Hx E).
      pose proof (interp_from_ge x' rest x1 y1 Hr E'). lra.
    + apply Qltb_ge in E. apply Qltb_lt in E'. lra.
    + apply Qltb_ge in E. apply IH; assumption.
Qed.

Lemma last_rising_abscissa (pts : list (Q * Q)) :
  forall x0 y0, rising x0 y0 pts -> x0 <= fst (List.last pts (x0, y0)).
Proof.
  induction pts as [|[x1 y1] rest IH]; intros x0 y0 Hr.
  - simpl. lra.
  - destruct Hr as (Hlt & Hle & Hr). specialize (IH x1 y1 Hr).
    rewrite last_cons_default. lra.
Qed.

(** Past the last sample point the value is the last ordinate. *)
Lemma interp_from_right (x : Q) (pts : list (Q * Q)) :
  forall x0 y0,
    rising x0 y0 pts -> fst (List.last pts (x0, y0)) <= x ->
    interp_from x x0 y0 pts = snd (List.last pts (x0, y0)).
Proof.
  induction pts as [|[x1 y1] rest IH]; intros x0 y0 Hr Hx.
  - reflexivity.
  - destruct Hr as (Hlt & Hle & Hr).
    rewrite last_cons_default in Hx |- *.
    pose proof (last_rising_abscissa rest x1 y1 Hr) as Hl.
    simpl. destruct (Qltb x x1) eqn:E.
    + apply Qltb_lt in E. lra.
    + apply IH; assumption.
Qed.

(** ** [np.interp] on a reference curve *)

Section Curve.
Variables xp fp : list Q.
Hypothesis xp_increasing : strictly_increasing xp = true.
Hypothesis fp_non_decreasing : non_decreasing fp = true.

Lemma curve_rising (x0 y0 : Q) (rest : list (Q * Q)) :
  zip xp fp = (x0, y0) :: rest -> rising x0 y0 rest.
Proof.
  destruct xp as [|x xs], fp as [|y ys]; try discriminate.
  simpl. intros [= -> -> <-]. apply rising_zip; assumption.
Qed.

(** A float that is not a NaN is looked up to a finite value. *)
Lemma interp1_finite (a : num) :
  zip xp fp <> [] -> a <> NaN -> exists q, interp1 xp fp a = Finite q.
Proof.
  unfold interp1. destruct (zip xp fp) as [|[x0 y0] rest]; [congruence|].
  intros _ Ha. destruct a; eauto. congruence.
Qed.

(** The lookup is clamped at the table's ends. *)
Lemma interp1_left (x0 y0 q : Q) (rest : list (Q * Q)) :
  zip xp fp = (x0, y0) :: rest -> q < x0 ->
  interp1 xp fp (Finite q) = Finite y0.
Proof.
  intros E Hq. unfold interp1. rewrite E.
  apply Qltb_lt in Hq. rewrite Hq. reflexivity.
Qed.

Lemma interp1_right (x0 y0 q : Q) (rest : list (Q * Q)) :
  zip xp fp = (x0, y0) :: rest ->
  fst (List.last rest (x0, y0)) <= q ->
  interp1 xp fp (Finite q) = Finite (snd (List.last rest (x0, y0))).
Proof.
  intros E Hq. unfold interp1. rewrite E.
  pose proof (curve_rising x0 y0 rest E) as Hr.
  pose proof (last_rising_abscissa rest x0 y0 Hr) as Hl.
  destruct (Qltb q x0) eqn:Eq.
  - apply Qltb_lt in Eq. lra.
  - rewrite interp_from_right by assumption. reflexivity.
Qed.

(** The lookup does not decrease with the abscissa. *)
Lemma interp1_mono (a b : num) :
  zip xp fp <> [] -> nle a b ->
  exists qa qb,
    interp1 xp fp a = Finite qa /\ interp1 xp fp b = Finite qb /\ qa <= qb.
Proof.
  unfold interp1. destruct (zip xp fp) as [|[x0 y0] rest] eqn:E; [congruence|].
  intros _ Hab. pose proof (curve_rising x0 y0 rest E) as Hr.
  pose proof (last_rising_ge rest x0 y0 Hr) as Hlast.
  destruct a as [qa| | |], b as [qb| | |]; simpl in Hab; try contradiction;
    do 2 eexists; (split; [reflexivity|split; [reflexivity|]]).
  - destruct (Qltb qa x0) eqn:Ea, (Qltb qb x0) eqn:Eb;
      rewrite ?Qltb_lt, ?Qltb_ge in *.
    + lra.
    + apply interp_from_ge; assumption.
    + lra.
    + apply interp_from_mono; assumption.
  - destruct (Qltb qa x0) eqn:Ea; rewrite ?Qltb_lt, ?Qltb_ge in *.
    + exact Hlast.
    + apply interp_from_le_last; assumption.
  - lra.
  - destruct (Qltb qb x0) eqn:Eb; rewrite ?Qltb_lt, ?Qltb_ge in *.
    + lra.
    + apply interp_from_ge; assumption.
  - exact Hlast.
  - lra.
Qed.

(** With ordinates that are fractions, so is the value looked up. *)
Lemma interp1_fraction (a : num) (q : Q) :
  fractions fp = true -> interp1 xp fp a = Finite q -> 0 <= q <= 1.
Proof.
  unfold interp1, fractions. intros Hf.
  destruct (zip xp fp) as [|[x0 y0] rest] eqn:E; [discriminate|].
  pose proof (curve_rising x0 y0 rest E) as Hr.
  assert (Hall : Forall (fun p : Q * Q => 0 <= snd p <= 1) ((x0, y0) :: rest)).
  { rewrite <- E. apply Forall_forall. intros [x y] Hin. simpl.
    apply elem_of_zip_r, list_elem_of_In in Hin.
    rewrite forallb_forall in Hf. specialize (Hf y Hin).
    apply andb_true_iff in Hf as [H0 H1].
    apply Qle_bool_iff in H0, H1. split; assumption. }
  pose proof (Forall_last _ _ _ Hall) as Hlast.
  apply Forall_cons in Hall as [Hy0 Hrest]. simpl in Hy0.
  destruct a as [qa| | |]; intros [= <-].
  - destruct (Qltb qa x0) eqn:Ea; [exact Hy0|].
    apply Qltb_ge in Ea. apply interp_from_between; assumption.
  - exact Hlast.
  - exact Hy0.
Qed.

End Curve.

End NumpyFacts.

(* ================================================================== *)
(** * Facts on [update] *)
(* ================================================================== *)

Module OpenOilFacts.
Import Numpy OpenOil NumpyFacts.

Section Facts.
Context {lib : NumpyLib}.

Ltac flags self :=
  destruct self as [[[di df ev em] dr] mo dt]; simpl in *.

Lemma evaporation_block_run (self : Simulation) (ws : list Q) (w : World) :
  evaporation_block self ws w
  = Returned (Urel_of self ws) (after_evaporation self ws w).
Proof. reflexivity. Qed.

Lemma emulsification_block_run (self : Simulation) (u : list num) (w : World) :
  emulsification_block self (Some u) w
  = Returned tt (after_emulsification self u w).
Proof. reflexivity. Qed.

Lemma dispersion_block_run (self : Simulation) (ws : list Q) (w : World) :
  dispersion_block self ws w = Returned tt (after_dispersion self ws w).
Proof. reflexivity. Qed.

Lemma diffusion_block_run (self : Simulation) (w : World) :
  diffusion_block self (wind_drift_factor (drift (config self))) w
  = Returned tt (after_diffusion self w).
Proof.
  unfold diffusion_block, after_diffusion, current_noise, wind_noise.
  cbv zeta.
  destruct (Qltb 0 (current_uncertainty (drift (config self))));
    destruct (Qltb 0 (wind_drift_factor (drift (config self)))
              && Qltb 0 (wind_uncertainty (drift (config self))));
    reflexivity.
Qed.

Lemma update_raised (self : Simulation) (w : World) :
  evaporation (processes (config self)) = false ->
  emulsification (processes (config self)) = true ->
  update self w = Raised (UnboundLocalError "Urel") (aged self w).
Proof.
  flags self. intros -> ->. reflexivity.
Qed.

Lemma run_bind {A B} (m : M A) (f : A -> M B) (w : World) :
  (m ≫= f) w
  = match m w with
    | Returned a w' => f a w'
    | Raised e w' => Raised e w'
    end.
Proof. reflexivity. Qed.

Lemma assign_run v f w : assign v f w = Returned tt (assigned v f w).
Proof. reflexivity. Qed.
Lemma get_environment_run w : get_environment w = Returned (environment w) w.
Proof. reflexivity. Qed.
Lemma deactivate_elements_run i r w :
  deactivate_elements i r w = Returned tt (elements_deactivated i r w).
Proof. reflexivity. Qed.
Lemma update_positions_run self u v w :
  update_positions self u v w = Returned tt (positions_updated self u v w).
Proof. reflexivity. Qed.
Lemma mret_run {A} (a : A) (w : World) : (mret a : M A) w = Returned a w.
Proof. reflexivity. Qed.

Ltac step :=
  first [ rewrite run_bind
        | rewrite assign_run | rewrite get_environment_run
        | rewrite deactivate_elements_run | rewrite update_positions_run
        | rewrite mret_run | rewrite evaporation_block_run
        | rewrite emulsification_block_run | rewrite dispersion_block_run
        | rewrite diffusion_block_run ];
  cbv beta iota.

Lemma update_returned (self : Simulation) (w : World) :
  completes self -> update self w = Returned tt (updated self w).
Proof.
  unfold completes. intros H.
  unfold update, updated, weathered, after_stranding, after_drift, on_land.
  destruct (evaporation (processes (config self))),
           (emulsification (processes (config self)));
    try (destruct H; discriminate);
    destruct (dispersion (processes (config self))),
             (diffusion (processes (config self))).
  all: repeat step.
  all: reflexivity.
Qed.

(** ** What the parts leave unchanged *)

Lemma perturbed_elements (self : Simulation) (s : option Q) (w : World) :
  exists x y, elements (perturbed self s w) = set_lon_lat x y (elements w).
Proof. destruct s; simpl; eauto. Qed.

Lemma perturbed_environment (self : Simulation) (s : option Q) (w : World) :
  environment (perturbed self s w) = environment w.
Proof. destruct s; reflexivity. Qed.

Lemma after_diffusion_elements (self : Simulation) (w : World) :
  exists x y, elements (after_diffusion self w) = set_lon_lat x y (elements w).
Proof.
  unfold after_diffusion.
  destruct (perturbed_elements self (wind_noise self)
              (perturbed self (current_noise self) w)) as (x & y & ->).
  destruct (perturbed_elements self (current_noise self) w) as (x' & y' & ->).
  eauto.
Qed.

Lemma after_diffusion_environment (self : Simulation) (w : World) :
  environment (after_diffusion self w) = environment w.
Proof. unfold after_diffusion. rewrite !perturbed_environment. reflexivity. Qed.

(** The elements at the end are those at the check for land, moved. *)
Lemma updated_elements (self : Simulation) (w : World) :
  exists x y,
    elements (updated self w)
    = set_lon_lat x y (elements (after_stranding (weathered self w))).
Proof.
  unfold updated.
  destruct (diffusion (processes (config self))).
  - destruct (after_diffusion_elements self
                (after_drift self (after_stranding (weathered self w))))
      as (x & y & ->).
    simpl. eauto.
  - simpl. eauto.
Qed.

Lemma updated_environment (self : Simulation) (w : World) :
  environment (updated self w) = environment (weathered self w).
Proof.
  unfold updated. destruct (diffusion (processes (config self)));
    rewrite ?after_diffusion_environment; reflexivity.
Qed.

Lemma weathered_land (self : Simulation) (w : World) :
  on_land (weathered self w) = on_land w.
Proof.
  unfold weathered.
  destruct (evaporation (processes (config self))),
           (emulsification (processes (config self))),
           (dispersion (processes (config self))); reflexivity.
Qed.

Lemma weathered_positions (self : Simulation) (w : World) :
  lon (elements (weathered self w)) = lon (elements w)
  /\ lat (elements (weathered self w)) = lat (elements w).
Proof.
  unfold weathered.
  destruct (evaporation (processes (config self))),
           (emulsification (processes (config self))),
           (dispersion (processes (config self))); split; reflexivity.
Qed.

Lemma weathered_status (self : Simulation) (w : World) :
  status (elements (weathered self w))
  = if evaporation (processes (config self))
    then deactivated (evaporated_now self (windspeed_of (environment w)) w)
                     evaporated (status (elements w))
    else status (elements w).
Proof.
  unfold weathered.
  destruct (evaporation (processes (config self))),
           (emulsification (processes (config self))),
           (dispersion (processes (config self))); reflexivity.
Qed.

Lemma updated_status (self : Simulation) (w : World) :
  status (elements (updated self w))
  = deactivated (on_land w) stranded
      (if evaporation (processes (config self))
       then deactivated (evaporated_now self (windspeed_of (environment w)) w)
                        evaporated (status (elements w))
       else status (elements w)).
Proof.
  destruct (updated_elements self w) as (x & y & ->).
  simpl. rewrite weathered_land, weathered_status. reflexivity.
Qed.

Lemma updated_mass_oil (self : Simulation) (w : World) :
  mass_oil (elements (updated self w))
  = if dispersion (processes (config self))
    then lift2 nsub (mass_oil (elements w))
           (oil_mass_loss_of self (elements w)
              (wind_waves (windspeed_of (environment w))
                 (sea_surface_wave_significant_height (environment w))))
    else mass_oil (elements w).
Proof.
  destruct (updated_elements self w) as (x & y & ->).
  simpl. unfold weathered.
  destruct (evaporation (processes (config self))),
           (emulsification (processes (config self))),
           (dispersion (processes (config self))); reflexivity.
Qed.

Lemma weathered_environment (self : Simulation) (w : World) :
  environment (weathered self w)
  = if dispersion (processes (config self))
    then set_sea_surface_wave_significant_height
           (wind_waves (windspeed_of (environment w))
              (sea_surface_wave_significant_height (environment w)))
           (environment w)
    else environment w.
Proof.
  unfold weathered.
  destruct (evaporation (processes (config self))),
           (emulsification (processes (config self))),
           (dispersion (processes (config self))); reflexivity.
Qed.

Lemma updated_age_exposure_seconds (self : Simulation) (w : World) :
  age_exposure_seconds (elements (updated self w))
  = if evaporation (processes (config self))
    then Array (age_exposure_after self (windspeed_of (environment w))
                                   (elements w))
    else age_exposure_seconds (elements w).
Proof.
  destruct (updated_elements self w) as (x & y & ->).
  simpl. unfold weathered.
  destruct (evaporation (processes (config self))),
           (emulsification (processes (config self))),
           (dispersion (processes (config self))); reflexivity.
Qed.

Lemma updated_fraction_evaporated (self : Simulation) (w : World) :
  fraction_evaporated (elements (updated self w))
  = if evaporation (processes (config self))
    then Array (fraction_after self (windspeed_of (environment w))
                               (elements w))
    else fraction_evaporated (elements w).
Proof.
  destruct (updated_elements self w) as (x & y & ->).
  simpl. unfold weathered.
  destruct (evaporation (processes (config self))),
           (emulsification (processes (config self))),
           (dispersion (processes (config self))); reflexivity.
Qed.

(** ** The events of a call *)

Lemma same_phase_in_order (k : nat) (evs : list Event) :
  Forall (fun e => phase e = k) evs -> StronglySorted in_order evs.
Proof.
  induction 1 as [|e evs He Hevs IH]; constructor; [exact IH|].
  apply Forall_impl with (1 := Hevs). intros e' He'.
  unfold in_order. lia.
Qed.

(** The events of the weathering parts: in order, and none beyond the
    dispersion. *)
Lemma weathered_trace (self : Simulation) (w : World) :
  exists evs,
    trace (weathered self w) = trace w ++ evs
    /\ StronglySorted in_order evs
    /\ Forall (fun e => (phase e <= 3)%nat) evs.
Proof.
  unfold weathered.
  destruct (evaporation (processes (config self))),
           (emulsification (processes (config self))),
           (dispersion (processes (config self)));
    simpl; rewrite <- ?app_assoc; simpl;
    (eexists; split; [reflexivity|]);
    split; repeat constructor; unfold in_order; simpl; lia.
Qed.

Lemma perturbed_trace (self : Simulation) (s : option Q) (w : World) :
  exists evs,
    trace (perturbed self s w) = trace w ++ evs
    /\ Forall (fun e => phase e = 5%nat) evs.
Proof.
  destruct s; simpl; rewrite <- ?app_assoc; simpl;
    (eexists; split; [reflexivity|]); repeat constructor.
Qed.

(** The events of the moves: position updates and their draws, the first
    one the move with the current. *)
Lemma moved_trace (self : Simulation) (w : World) :
  exists u v evs,
    trace (if diffusion (processes (config self))
           then after_diffusion self (after_drift self w)
           else after_drift self w)
    = trace w ++ UpdatePositions u v :: evs
    /\ Forall (fun e => phase e = 5%nat) evs.
Proof.
  destruct (diffusion (processes (config self))).
  - unfold after_diffusion.
    destruct (perturbed_trace self (wind_noise self)
                (perturbed self (current_noise self) (after_drift self w)))
      as (e2 & -> & H2).
    destruct (perturbed_trace self (current_noise self) (after_drift self w))
      as (e1 & -> & H1).
    simpl. rewrite <- !app_assoc. simpl.
    do 3 eexists. split; [reflexivity|].
    constructor; [reflexivity|]. apply Forall_app. split; assumption.
  - simpl. rewrite <- !app_assoc. simpl.
    do 3 eexists. split; [reflexivity|]. repeat constructor.
Qed.

Lemma updated_trace (self : Simulation) (w : World) :
  exists weathering u v moves,
    trace (updated self w)
    = trace w ++ weathering
      ++ Deactivate (on_land w) stranded :: UpdatePositions u v :: moves
    /\ StronglySorted in_order weathering
    /\ Forall (fun e => (phase e <= 3)%nat) weathering
    /\ Forall (fun e => phase e = 5%nat) moves.
Proof.
  unfold updated. cbv zeta.
  destruct (moved_trace self (after_stranding (weathered self w)))
    as (u & v & moves & -> & Hm).
  destruct (weathered_trace self w) as (weathering & Hw & Hs & Hp).
  simpl. rewrite Hw, weathered_land, <- !app_assoc. simpl.
  exists weathering, u, v, moves. auto.
Qed.

(** In an ordered run nothing moves before the check for land. *)
Lemma no_move_before_check (evs pre post : list Event) (mask : list bool) :
  StronglySorted in_order evs ->
  evs = pre ++ Deactivate mask stranded :: post ->
  Forall (fun e => is_UpdatePositions e = false) pre.
Proof.
  intros Hs ->. apply Forall_forall. intros e He.
  assert (Ho : in_order e (Deactivate mask stranded)).
  { apply (StronglySorted_app_1_elem_of _ _ _ _ _ Hs He). left. }
  unfold in_order in Ho. destruct e; try reflexivity. simpl in Ho. lia.
Qed.

(** ** Dispersion *)

Lemma lookup_wind_waves (ws height : list Q) (i : nat) :
  wind_waves ws height !! i
  = (fun h => if Qeq_bool h 0
              then match ws !! i with
                   | Some w => 0.0246 * w ^ 2
                   | None => h
                   end
              else h) <$> height !! i.
Proof. unfold wind_waves. apply list_lookup_imap. Qed.


(** ** Diffusion *)


Lemma length_deactivated (m : list bool) (r : Status) (st : list Status) :
  length (deactivated m r st) = length st.
Proof. apply length_imap. Qed.




(** ** Evaporation *)

Lemma windspeed_nonneg {laws : NumpyLaws lib} (env : Environment) (i : nat)
  (ws : Q) :
  windspeed_of env !! i = Some ws -> 0 <= ws.
Proof.
  unfold windspeed_of. rewrite lookup_zip_with.
  destruct (x_wind env !! i) as [x|]; [|discriminate].
  destruct (y_wind env !! i) as [y|]; [|discriminate].
  simpl. intros [= <-]. apply np_sqrt_nonneg.
  pose proof (Qsqr_nonneg x). pose proof (Qsqr_nonneg y). lra.
Qed.

(** With a positive reference wind the exposure increment is a finite,
    non-negative number of seconds. *)
Lemma delta_exposure_nonneg {laws : NumpyLaws lib} (self : Simulation)
  (env : Environment) (i : nat) (d : num) :
  0 < reference_wind (model self) ->
  0 <= reference_thickness (model self) ->
  0 <= time_step self ->
  delta_exposure_seconds_of self (Urel_of self (windspeed_of env)) !! i
  = Some d ->
  exists q, d = Finite q /\ 0 <= q.
Proof.
  intros Hw Ht Hdt. unfold delta_exposure_seconds_of, Urel_of.
  rewrite !list_lookup_fmap.
  destruct (windspeed_of env !! i) as [ws|] eqn:E; [|discriminate].
  apply windspeed_nonneg in E. simpl. intros [= <-].
  assert (Hz : Qeq_bool (reference_wind (model self)) 0 = false)
    by (apply Qeq_bool_false; lra).
  rewrite Hz. simpl. eexists. split; [reflexivity|].
  assert (0 <= ws / reference_wind (model self))
    by (apply Qle_shift_div_l; lra).
  assert (0 <= reference_thickness (model self) / 2)
    by (apply Qle_shift_div_l; lra).
  apply Qmult_le_0_compat; [apply Qmult_le_0_compat|]; assumption.
Qed.

(** An exposure age that is a number stays one and does not decrease. *)
Lemma age_exposure_after_ge {laws : NumpyLaws lib} (self : Simulation)
  (env : Environment) (o : Oil) (i : nat) (a' : num) :
  0 < reference_wind (model self) ->
  0 <= reference_thickness (model self) ->
  0 <= time_step self ->
  age_exposure_after self (windspeed_of env) o !! i = Some a' ->
  exists a,
    item (age_exposure_seconds o) i = Some a
    /\ (a <> NaN -> nle a a' /\ a' <> NaN).
Proof.
  intros Hw Ht Hdt. unfold age_exposure_after, exposed.
  set (delta := delta_exposure_seconds_of self
                  (Urel_of self (windspeed_of env))).
  assert (Hdelta : forall d, delta !! i = Some d ->
                             exists q, d = Finite q /\ 0 <= q).
  { intros d. apply delta_exposure_nonneg; assumption. }
  destruct (age_exposure_seconds o) as [a|l]; simpl.
  - rewrite list_lookup_fmap.
    destruct (delta !! i) as [d|]; [|discriminate].
    destruct (Hdelta d eq_refl) as (q & -> & Hq). simpl. intros [= <-].
    exists a. split; [reflexivity|]. intros Ha.
    split; [apply nle_nadd_nonneg|apply nadd_finite_not_nan]; assumption.
  - unfold iadd_where. rewrite list_lookup_imap.
    destruct (l !! i) as [a|]; [|discriminate]. simpl. intros [= <-].
    exists a. split; [reflexivity|]. intros Ha.
    destruct (at_surface_in o !! i) as [[|]|];
      try (split; [apply nle_refl|]; assumption).
    destruct (delta !! i) as [d|];
      try (split; [apply nle_refl|]; assumption).
    destruct (Hdelta d eq_refl) as (q & -> & Hq).
    split; [apply nle_nadd_nonneg|apply nadd_finite_not_nan]; assumption.
Qed.

Lemma zip_not_nil {A B} (l : list A) (k : list B) :
  l <> [] -> k <> [] -> zip l k <> [].
Proof. destruct l, k; simpl; congruence. Qed.

(** ** Below the surface *)

(** In an array of exposure ages, an element that is not at the surface
    keeps its age. *)
Lemma age_exposure_kept_below_surface (self : Simulation) (ws : list Q)
  (o : Oil) (l : list num) (i : nat) :
  age_exposure_seconds o = Array l ->
  at_surface_in o !! i = Some false ->
  age_exposure_after self ws o !! i = l !! i.
Proof.
  intros Hl Hs. unfold age_exposure_after, exposed, iadd_where.
  rewrite Hl, list_lookup_imap, Hs. destruct (l !! i); reflexivity.
Qed.

(** A scalar exposure age gets the increment whatever the depth. *)
Lemma age_exposure_scalar_grows (self : Simulation) (ws : list Q)
  (o : Oil) (a : num) (i : nat) :
  age_exposure_seconds o = Scalar a ->
  age_exposure_after self ws o !! i
  = nadd a <$> delta_exposure_seconds_of self (Urel_of self ws) !! i.
Proof.
  intros Ha. unfold age_exposure_after, exposed. rewrite Ha.
  apply list_lookup_fmap.
Qed.

(** The probability of an element that is not at the surface is 0. *)
Lemma evaporation_probability_below_surface (self : Simulation)
  (ws : list Q) (o : Oil) (i : nat) (p : num) :
  at_surface_in o !! i = Some false ->
  evaporation_probability self ws o !! i = Some p ->
  p = Finite 0.
Proof.
  intros Hs. unfold evaporation_probability, evaporation_probability_of,
    fill_where.
  rewrite list_lookup_imap, list_lookup_fmap, Hs. simpl.
  destruct (lift2_l _ _ _ !! i); simpl; congruence.
Qed.

(** ** Complete evaporation *)

(** At the surface, with a previous fraction of 1, the probability is the
    quotient by zero: a NaN when the new fraction is 1 too, an infinity
    otherwise; it is never 0. *)
Lemma evaporation_probability_after_full_evaporation (self : Simulation)
  (ws : list Q) (o : Oil) (i : nat) (q : Q) :
  at_surface_in o !! i = Some true ->
  item (fraction_evaporated o) i = Some (Finite 1) ->
  fraction_after self ws o !! i = Some (Finite q) ->
  evaporation_probability self ws o !! i
  = Some (by_sign (q + - 1) PosInf NegInf).
Proof.
  intros Hs Hp Hf. unfold evaporation_probability, evaporation_probability_of,
    fill_where.
  rewrite list_lookup_imap, list_lookup_fmap, Hs. simpl.
  rewrite !lookup_lift2_l, Hf. simpl. rewrite item_lift1, Hp. simpl.
  reflexivity.
Qed.

(** ** Emulsification *)

Lemma updated_age_emulsion_seconds (self : Simulation) (w : World) :
  age_emulsion_seconds (elements (updated self w))
  = if emulsification (processes (config self))
    then lift2 nadd (age_emulsion_seconds (elements w))
           (Array (map (fun u => nmul u (Finite (time_step self)))
                       (Urel_of self (windspeed_of (environment w)))))
    else age_emulsion_seconds (elements w).
Proof.
  destruct (updated_elements self w) as (x & y & ->).
  simpl. unfold weathered.
  destruct (evaporation (processes (config self))),
           (emulsification (processes (config self))),
           (dispersion (processes (config self))); reflexivity.
Qed.

Lemma updated_water_content (self : Simulation) (w : World) :
  water_content (elements (updated self w))
  = if emulsification (processes (config self))
    then np_interp (age_emulsion_seconds (elements (updated self w)))
                   (tref (model self)) (wmax (model self))
    else water_content (elements w).
Proof.
  rewrite updated_age_emulsion_seconds.
  destruct (updated_elements self w) as (x & y & ->).
  simpl. unfold weathered.
  destruct (evaporation (processes (config self))),
           (emulsification (processes (config self))),
           (dispersion (processes (config self))); reflexivity.
Qed.

End Facts.
End OpenOilFacts.

(* ================================================================== *)
(** * Facts on the worked inputs *)
(* ================================================================== *)

Module ScenarioFacts.
Import Numpy Scenario.

(** The stand-in library has what the proofs use of numpy. *)
#[export] Instance tape_laws : NumpyLaws tape_lib.
Proof.
  split.
  - intros x _. simpl. unfold Qle. simpl.
    pose proof (Z.sqrt_nonneg (Qnum x * Z.pos (Qden x))). lia.
  - intros x. simpl.
    assert (E : 1 + x + x * x / 2 == ((x + 1) * (x + 1) + 1) / 2) by field.
    rewrite E. apply Qlt_shift_div_l; [reflexivity|]. nra.
  - intros x y Hx. simpl. apply Qpower_0_lt. exact Hx.
Defined.

End ScenarioFacts.

(* ================================================================== *)
(** * The claims on [update] *)
(* ================================================================== *)

Module OpenOilSpec.
Import Numpy OpenOil NumpyFacts OpenOilFacts Scenario ScenarioFacts.

(** C1.  An element whose [fraction_evaporated] is 1 at the start of the
    time step gets the evaporation probability [(1 - 1) / (1 - 1)]: the
    division by zero is carried out, its result is a NaN, not the 0 a
    special case would give.  (The NaN compares false with the draw, so
    the element stays active.) *)
Theorem evaporation_probability_nan_when_fully_evaporated :
  item (fraction_evaporated (elements fully_evaporated)) 0 = Some (Finite 1)
  /\ at_surface_in (elements fully_evaporated) = [true]
  /\ evaporation_probability (sim all_on)
       (windspeed_of (environment fully_evaporated))
       (elements fully_evaporated) = [NaN]
  /\ status (elements (world_of (update (sim all_on) fully_evaporated)))
     = [active].
Proof. vm_compute. repeat split; reflexivity. Qed.

(** C2.  With emulsification on and evaporation off, [update] reads the
    local variable [Urel] that only the evaporation part binds: the call
    raises [UnboundLocalError] and leaves [age_emulsion_seconds] and
    [water_content] as they were (and, the call ending there, the mass
    and the status too). *)
Theorem emulsification_without_evaporation_raises :
  exists w',
    update (sim no_evaporation) (spill 1000)
    = Raised (UnboundLocalError "Urel") w'
    /\ age_emulsion_seconds (elements w')
       = age_emulsion_seconds (elements (spill 1000))
    /\ water_content (elements w')
       = water_content (elements (spill 1000))
    /\ mass_oil (elements w') = mass_oil (elements (spill 1000))
    /\ status (elements w') = status (elements (spill 1000)).
Proof.
  eexists. split; [apply update_raised; reflexivity|].
  repeat split; reflexivity.
Qed.

(** C4.  When [age_exposure_seconds] is still a scalar, the exposure
    increment is added to every element: the element at index 1, ten
    metres below the surface, goes from an exposure age of 0 to one of
    3600 s. *)
Theorem scalar_exposure_age_grows_below_the_surface :
  item (depth (elements two_depths)) 1 = Some (Finite 10)
  /\ item (age_exposure_seconds (elements two_depths)) 1 = Some (Finite 0)
  /\ exists q,
       item (age_exposure_seconds
               (elements (world_of (update (sim all_on) two_depths)))) 1
       = Some (Finite q)
       /\ q == 3600.
Proof.
  split; [reflexivity|]. split; [reflexivity|].
  vm_compute. eexists. split; reflexivity.
Qed.

Section Claims.
Context {lib : NumpyLib}.

(** C3.  The events of one call of [update] come part by part in the
    fixed order evaporation, emulsification, dispersion, check for land,
    moves.  The check for land uses the land mask of the environment the
    call was given, the one of the positions before the call, and every
    [update_positions] comes after it. *)
Theorem update_runs_its_parts_in_order (self : Simulation) (w : World) :
  exists evs,
    trace (world_of (update self w)) = trace w ++ evs
    /\ StronglySorted in_order evs
    /\ (forall mask, Deactivate mask stranded ∈ evs -> mask = on_land w)
    /\ (forall pre mask post,
          evs = pre ++ Deactivate mask stranded :: post ->
          Forall (fun e => is_UpdatePositions e = false) pre)
    /\ (forall w', update self w = Returned tt w' ->
          exists pre u v post,
            evs = pre ++ Deactivate (on_land w) stranded
                      :: UpdatePositions u v :: post
            /\ Forall (fun e => (phase e <= 3)%nat) pre).
Proof.
  assert (Hcases : completes self
                   \/ (evaporation (processes (config self)) = false
                       /\ emulsification (processes (config self)) = true)).
  { unfold completes.
    destruct (evaporation (processes (config self))),
             (emulsification (processes (config self))); auto. }
  destruct Hcases as [Hc | [Hev Hem]].
  - rewrite (update_returned self w Hc). simpl.
    destruct (updated_trace self w)
      as (weathering & u & v & moves & Ht & Hs & Hp & Hm).
    exists (weathering
            ++ Deactivate (on_land w) stranded :: UpdatePositions u v :: moves).
    assert (Hsorted : StronglySorted in_order
              (weathering ++ Deactivate (on_land w) stranded
                 :: UpdatePositions u v :: moves)).
    { apply StronglySorted_app_2.
      - intros e1 e2 H1 H2. unfold in_order.
        rewrite Forall_forall in Hp. specialize (Hp e1 H1).
        apply elem_of_cons in H2 as [-> | H2]; [simpl; lia|].
        apply elem_of_cons in H2 as [-> | H2]; [simpl; lia|].
        rewrite Forall_forall in Hm. rewrite (Hm e2 H2). lia.
      - exact Hs.
      - constructor.
        + apply (same_phase_in_order 5). constructor; [reflexivity|exact Hm].
        + constructor; [unfold in_order; simpl; lia|].
          apply Forall_impl with (1 := Hm). intros e He.
          unfold in_order. rewrite He. simpl. lia. }
    split; [exact Ht|]. split; [exact Hsorted|]. split; [|split].
    + intros mask Hin.
      apply elem_of_app in Hin as [Hin | Hin].
      * rewrite Forall_forall in Hp. specialize (Hp _ Hin). simpl in Hp. lia.
      * apply elem_of_cons in Hin as [[= ->] | Hin]; [reflexivity|].
        apply elem_of_cons in Hin as [[=] | Hin].
        rewrite Forall_forall in Hm. specialize (Hm _ Hin). discriminate Hm.
    + intros pre mask post E.
      apply (no_move_before_check _ pre post mask Hsorted E).
    + intros w' _. exists weathering, u, v, moves.
      split; [reflexivity|exact Hp].
  - rewrite (update_raised self w Hev Hem). simpl.
    exists [Assign var_age_seconds].
    assert (Hsorted : StronglySorted in_order [Assign var_age_seconds])
      by repeat constructor.
    split; [reflexivity|]. split; [exact Hsorted|]. split; [|split].
    + intros mask Hin. apply elem_of_cons in Hin as [[=] | Hin].
      apply elem_of_nil in Hin. contradiction.
    + intros pre mask post E.
      apply (no_move_before_check _ pre post mask Hsorted E).
    + intros w' [=].
Qed.


(** C9.  The dispersion part writes into the environment: with
    dispersion on, after a call of [update] that runs to its end every
    entry of [sea_surface_wave_significant_height] that was 0 holds
    [0.0246 * windspeed^2]; the other entries and the other arrays of the
    environment are as they were.  Where the wind blows, an entry that was
    0 no longer is. *)
Theorem dispersion_overwrites_calm_waves (self : Simulation) (w : World) :
  dispersion (processes (config self)) = true ->
  completes self ->
  exists w',
    update self w = Returned tt w'
    /\ (forall i h ws,
          sea_surface_wave_significant_height (environment w) !! i = Some h ->
          windspeed_of (environment w) !! i = Some ws ->
          sea_surface_wave_significant_height (environment w') !! i
          = Some (if Qeq_bool h 0 then 0.0246 * ws ^ 2 else h))
    /\ (forall i h ws,
          sea_surface_wave_significant_height (environment w) !! i = Some h ->
          windspeed_of (environment w) !! i = Some ws ->
          h == 0 -> ~ ws == 0 ->
          exists h',
            sea_surface_wave_significant_height (environment w') !! i
            = Some h' /\ ~ h' == h)
    /\ length (sea_surface_wave_significant_height (environment w'))
       = length (sea_surface_wave_significant_height (environment w))
    /\ x_sea_water_velocity (environment w')
       = x_sea_water_velocity (environment w)
    /\ y_sea_water_velocity (environment w')
       = y_sea_water_velocity (environment w)
    /\ sea_surface_wave_to_direction (environment w')
       = sea_surface_wave_to_direction (environment w)
    /\ x_wind (environment w') = x_wind (environment w)
    /\ y_wind (environment w') = y_wind (environment w)
    /\ land_binary_mask (environment w') = land_binary_mask (environment w).
Proof.
  intros Hd Hc. exists (updated self w).
  split; [apply update_returned, Hc|].
  rewrite updated_environment, weathered_environment, Hd. simpl.
  assert (Hl : forall i h ws,
    sea_surface_wave_significant_height (environment w) !! i = Some h ->
    windspeed_of (environment w) !! i = Some ws ->
    wind_waves (windspeed_of (environment w))
      (sea_surface_wave_significant_height (environment w)) !! i
    = Some (if Qeq_bool h 0 then 0.0246 * ws ^ 2 else h)).
  { intros i h ws Hh Hw. rewrite lookup_wind_waves, Hh, Hw. reflexivity. }
  split; [exact Hl|]. split.
  - intros i h ws Hh Hw Hz Hnz. eexists. split; [apply (Hl i h ws Hh Hw)|].
    apply Qeq_bool_iff in Hz. rewrite Hz.
    apply Qeq_bool_iff in Hz. intros E. apply Hnz.
    assert (Hsq : ws * ws == 0).
    { assert (E' : 0.0246 * ws ^ 2 == 0) by (rewrite E; exact Hz).
      simpl in E'. lra. }
    apply Qmult_integral in Hsq. destruct Hsq; assumption.
  - split; [apply length_imap|]. repeat split; reflexivity.
Qed.

(** C6, as amended.  When [update] runs to its end, an element that was
    active and whose position is on land ([land_binary_mask] 1) is
    [stranded] afterwards, unless the evaporation draw of the same call
    deactivated it first: then it stays [evaporated]. *)
Theorem stranded_unless_evaporated (self : Simulation) (w : World)
  (i : nat) (s : Status) (m : Q) :
  completes self ->
  status (elements w) !! i = Some s -> terminal s = false ->
  land_binary_mask (environment w) !! i = Some m -> m == 1 ->
  exists w',
    update self w = Returned tt w'
    /\ status (elements w') !! i
       = Some (if evaporation (processes (config self))
                  && default false
                       (evaporated_now self (windspeed_of (environment w)) w
                        !! i)
               then evaporated else stranded).
Proof.
  intros Hc Hs Ht Hm Hm1. eexists. split; [apply update_returned, Hc|].
  rewrite updated_status. unfold deactivated at 1.
  rewrite list_lookup_imap. unfold on_land.
  rewrite list_lookup_fmap, Hm. simpl.
  apply Qeq_bool_iff in Hm1. rewrite Hm1. simpl.
  destruct (evaporation (processes (config self))); simpl.
  - unfold deactivated. rewrite list_lookup_imap, Hs. simpl.
    rewrite Ht. simpl.
    destruct (default false (evaporated_now _ _ _ !! i)); simpl;
      rewrite ?Ht; reflexivity.
  - rewrite Hs. simpl. rewrite Ht. reflexivity.
Qed.



End Claims.

(** C6, as stated, fails: the element of [on_the_shore] is active and on
    land, evaporates in the call (the draw 0.3 is below its probability
    0.5), and ends [evaporated], not [stranded]. *)
Lemma on_land_but_evaporated :
  status (elements on_the_shore) !! 0%nat = Some active
  /\ land_binary_mask (environment on_the_shore) !! 0%nat = Some 1
  /\ (exists w', update (sim all_on) on_the_shore = Returned tt w'
                 /\ status (elements w') !! 0%nat = Some evaporated)
  /\ ~ (exists w', update (sim all_on) on_the_shore = Returned tt w'
                   /\ status (elements w') !! 0%nat = Some stranded).
Proof.
  split; [reflexivity|]. split; [reflexivity|].
  assert (E : exists w', update (sim all_on) on_the_shore = Returned tt w'
                         /\ status (elements w') = [evaporated]).
  { eexists. split; [apply update_returned; left; reflexivity|].
    vm_compute. reflexivity. }
  destruct E as (w' & Hu & Hs). split.
  - exists w'. rewrite Hs. split; [assumption|reflexivity].
  - intros (w'' & Hu' & Hs'). rewrite Hu in Hu'. injection Hu' as <-.
    rewrite Hs in Hs'. discriminate.
Qed.

(** ** The theorems at the worked inputs *)


(** [dispersion_overwrites_calm_waves] on a sea without waves under a
    wind of 5 m/s. *)
Lemma dispersion_overwrites_calm_waves_witness :
  dispersion (processes (config (sim all_on))) = true
  /\ completes (sim all_on)
  /\ exists w' h,
       update (sim all_on) calm = Returned tt w'
       /\ sea_surface_wave_significant_height (environment w') !! 0%nat
          = Some h
       /\ h == 0.615.
Proof.
  split; [reflexivity|]. split; [left; reflexivity|].
  destruct (dispersion_overwrites_calm_waves (sim all_on) calm
              eq_refl (or_introl eq_refl))
    as (w' & Hu & Hh & _).
  specialize (Hh 0%nat 0 5 eq_refl eq_refl).
  eexists w', _. split; [exact Hu|]. split; [exact Hh|].
  vm_compute. reflexivity.
Defined.


(** [stranded_unless_evaporated] on the element on the shore. *)
Lemma stranded_unless_evaporated_witness :
  completes (sim all_on)
  /\ status (elements on_the_shore) !! 0%nat = Some active
  /\ terminal active = false
  /\ land_binary_mask (environment on_the_shore) !! 0%nat = Some 1
  /\ 1 == 1
  /\ exists w',
       update (sim all_on) on_the_shore = Returned tt w'
       /\ status (elements w') !! 0%nat = Some evaporated.
Proof.
  split; [left; reflexivity|]. do 4 (split; [reflexivity|]).
  destruct (stranded_unless_evaporated (sim all_on) on_the_shore 0 active 1
              (or_introl eq_refl) eq_refl eq_refl eq_refl (Qeq_refl 1))
    as (w' & Hu & Hs).
  exists w'. split; [exact Hu|]. rewrite Hs. vm_compute. reflexivity.
Defined.


(** From a thousandth of a kilogram the element of §8 ends the time step
    with a negative mass. *)
Example mass_oil_goes_negative :
  exists w' m',
    update (sim all_on) (spill 0.001) = Returned tt w'
    /\ item (mass_oil (elements w')) 0 = Some (Finite m')
    /\ m' < 0.
Proof.
  eexists. eexists. split; [apply update_returned; left; reflexivity|].
  vm_compute. split; reflexivity.
Qed.

End OpenOilSpec.

(* ================================================================== *)
(** * Facts and the claim on the combined reader *)
(* ================================================================== *)

Module NumopsSpec.
Import Numpy NumpyFacts Numops.

Section Combined.
Context {Args : Type}.

Lemma assign_op_lookup (op : ndarray -> ndarray) (env : gmap string ndarray)
  (var k : string) :
  assign_op op env var !! k
  = if decide (k = var) then op <$> env !! k else env !! k.
Proof.
  unfold assign_op. destruct (decide (k = var)) as [->|Hne].
  - destruct (env !! var) eqn:E; [|rewrite E; reflexivity].
    rewrite lookup_insert_eq. reflexivity.
  - destruct (env !! var); [|reflexivity].
    rewrite lookup_insert_ne by congruence. reflexivity.
Qed.

(** The loop over distinct names applies the operation once to each. *)
Lemma loop_lookup (op : ndarray -> ndarray) (variables : list string) :
  NoDup variables ->
  forall (env : gmap string ndarray) (k : string),
    foldl (assign_op op) env variables !! k
    = if decide (k ∈ variables) then op <$> env !! k else env !! k.
Proof.
  induction 1 as [|var variables Hnotin Hnodup IH]; intros env k; simpl.
  - destruct (decide (k ∈ [])) as [Hin|]; [|reflexivity].
    apply elem_of_nil in Hin. contradiction.
  - rewrite IH, assign_op_lookup.
    destruct (decide (k ∈ variables)) as [Hin|Hout].
    + destruct (decide (k = var)) as [->|Hne]; [contradiction|].
      destruct (decide (k ∈ var :: variables)) as [|Hn]; [reflexivity|].
      exfalso. apply Hn. right. exact Hin.
    + destruct (decide (k = var)) as [->|Hne].
      * destruct (decide (var ∈ var :: variables)) as [|Hn]; [reflexivity|].
        exfalso. apply Hn. left.
      * destruct (decide (k ∈ var :: variables)) as [Hin|]; [|reflexivity].
        apply elem_of_cons in Hin as [|]; contradiction.
Qed.

Lemma apply_op_lookup (op : ndarray -> ndarray) (env : gmap string ndarray)
  (k : string) :
  apply_op op env !! k
  = if decide (k ∈ coordinates) then env !! k else op <$> env !! k.
Proof.
  unfold apply_op. rewrite loop_lookup.
  - destruct (decide (k ∈ filter (fun var => var ∉ coordinates)
                                 (map fst (map_to_list env))))
      as [Hin|Hout].
    + apply list_elem_of_filter in Hin as [Hk _].
      destruct (decide (k ∈ coordinates)); [contradiction|reflexivity].
    + destruct (decide (k ∈ coordinates)) as [|Hk]; [reflexivity|].
      destruct (env !! k) as [v|] eqn:E; [|reflexivity].
      exfalso. apply Hout. apply list_elem_of_filter. split; [exact Hk|].
      apply list_elem_of_fmap. exists (k, v).
      split; [reflexivity|]. apply elem_of_map_to_list. exact E.
  - apply NoDup_filter. apply NoDup_fst_map_to_list.
Qed.

Lemma maps_variables_of_op (f : num -> num) (c : Combined Args)
  (args : Args) :
  op c = lift1 f -> maps_variables f c args.
Proof.
  intros Hop var. unfold Combined_get_variables_interpolated.
  destruct (_get_variables_interpolated_ (r c) args) as [env env_profiles].
  simpl. rewrite !apply_op_lookup, Hop.
  split; intros Hvar; destruct (decide (var ∈ coordinates));
    try contradiction; split; reflexivity.
Qed.

(** C10.  A reader combined with a number returns what the wrapped
    reader returns, with the operation applied entry by entry to every
    variable of [env] and of [env_profiles], except [x], [y] and [time],
    which come back unchanged.  The number is the left operand of the sum
    and of the product, and the right operand of the difference and of
    the quotient: [sub] gives [x - n], [div] gives [x / n]. *)
Theorem combined_applies_op_to_variables (n : num) (r : BaseReader Args)
  (args : Args) :
  maps_variables (fun x => nadd n x) (add n r) args
  /\ maps_variables (fun x => nmul n x) (mul n r) args
  /\ maps_variables (fun x => nsub x n) (sub n r) args
  /\ maps_variables (fun x => ndiv x n) (div n r) args
  /\ (forall (f : num -> num) (v : ndarray) (i : nat),
        item (lift1 f v) i = f <$> item v i).
Proof.
  split; [apply maps_variables_of_op; reflexivity|].
  split; [apply maps_variables_of_op; reflexivity|].
  split; [apply maps_variables_of_op; reflexivity|].
  split; [apply maps_variables_of_op; reflexivity|].
  intros f v i. apply item_lift1.
Qed.

End Combined.
End NumopsSpec.

(* ================================================================== *)
(** * More on [update] *)
(* ================================================================== *)

Module OpenOilMore.
Import Numpy OpenOil NumpyFacts OpenOilFacts Scenario ScenarioFacts MoreInputs.

Section More.
Context {lib : NumpyLib}.

(** A call ends in [updated], or raises from [aged]. *)
Lemma update_cases (self : Simulation) (w : World) :
  (completes self /\ update self w = Returned tt (updated self w))
  \/ (evaporation (processes (config self)) = false
      /\ emulsification (processes (config self)) = true
      /\ update self w = Raised (UnboundLocalError "Urel") (aged self w)).
Proof.
  destruct (evaporation (processes (config self))) eqn:Ev.
  - left. assert (Hc : completes self) by (left; exact Ev).
    split; [exact Hc|apply update_returned, Hc].
  - destruct (emulsification (processes (config self))) eqn:Em.
    + right. split; [reflexivity|]. split; [reflexivity|].
      apply update_raised; assumption.
    + left. assert (Hc : completes self) by (right; exact Em).
      split; [exact Hc|apply update_returned, Hc].
Qed.

(** The properties no part writes, in the world at the check for land. *)
Lemma weathered_kept (self : Simulation) (w : World) :
  viscosity (elements (weathered self w)) = viscosity (elements w)
  /\ density (elements (weathered self w)) = density (elements w)
  /\ mass_emulsion (elements (weathered self w)) = mass_emulsion (elements w)
  /\ depth (elements (weathered self w)) = depth (elements w)
  /\ age_seconds (elements (weathered self w))
     = lift2 nadd (age_seconds (elements w))
                  (Scalar (Finite (time_step self))).
Proof.
  unfold weathered.
  destruct (evaporation (processes (config self))),
           (emulsification (processes (config self))),
           (dispersion (processes (config self))); repeat split.
Qed.

Lemma length_advanced (dt : Q) (st : list Status) (vel pos : list num) :
  length (advanced dt st vel pos) = length pos.
Proof. apply length_imap. Qed.

Lemma perturbed_lengths (self : Simulation) (s : option Q) (w : World) :
  length (lon (elements (perturbed self s w))) = length (lon (elements w))
  /\ length (lat (elements (perturbed self s w)))
     = length (lat (elements w)).
Proof. destruct s; simpl; rewrite !length_advanced; split; reflexivity. Qed.

Lemma updated_lengths (self : Simulation) (w : World) :
  length (lon (elements (updated self w))) = length (lon (elements w))
  /\ length (lat (elements (updated self w))) = length (lat (elements w)).
Proof.
  unfold updated. cbv zeta.
  set (w5 := after_drift self (after_stranding (weathered self w))).
  assert (H5 : length (lon (elements w5)) = length (lon (elements w))
               /\ length (lat (elements w5)) = length (lat (elements w))).
  { unfold w5. simpl. rewrite !length_advanced.
    destruct (weathered_positions self w) as [-> ->]. split; reflexivity. }
  destruct (diffusion (processes (config self))); [|exact H5].
  unfold after_diffusion.
  destruct (perturbed_lengths self (wind_noise self)
              (perturbed self (current_noise self) w5)) as [-> ->].
  destruct (perturbed_lengths self (current_noise self) w5) as [-> ->].
  exact H5.
Qed.

(** Without evaporation no event belongs to the evaporation part. *)
Lemma weathered_trace_without_evaporation (self : Simulation) (w : World) :
  evaporation (processes (config self)) = false ->
  exists evs,
    trace (weathered self w) = trace w ++ evs
    /\ Forall (fun e => phase e <> 1%nat) evs.
Proof.
  intros Hev. unfold weathered. rewrite Hev.
  destruct (emulsification (processes (config self))),
           (dispersion (processes (config self)));
    simpl; rewrite <- ?app_assoc; simpl;
    (eexists; split; [reflexivity|]); repeat constructor; simpl; lia.
Qed.

Lemma at_surface_lookup (o : Oil) (i : nat) (d : num) :
  item (depth o) i = Some d -> (i < length (status o))%nat ->
  at_surface_in o !! i = Some (neqb d (Finite 0)).
Proof.
  unfold at_surface_in, at_surface_of. destruct (depth o) as [d'|l]; simpl.
  - intros [= ->] Hi. apply lookup_replicate. split; [reflexivity|exact Hi].
  - intros Hd _. rewrite list_lookup_fmap, Hd. reflexivity.
Qed.

(** With draws that are not negative, an element that is not at the
    surface is not among those the evaporation part deactivates. *)
Lemma evaporated_now_below_surface (self : Simulation) (ws : list Q)
  (w : World) (i : nat) (d : num) :
  item (depth (elements w)) i = Some d -> neqb d (Finite 0) = false ->
  (i < length (status (elements w)))%nat ->
  Forall (fun u => 0 <= u) (fst (evaporation_draw w)) ->
  default false (evaporated_now self ws w !! i) = false.
Proof.
  intros Hd Hz Hi Hdraw. unfold evaporated_now.
  rewrite lookup_zip_with.
  destruct (evaporation_probability self ws (elements w) !! i) as [p|] eqn:Ep;
    [|reflexivity].
  pose proof (at_surface_lookup _ _ _ Hd Hi) as Hs. rewrite Hz in Hs.
  rewrite (evaporation_probability_below_surface self ws _ i p Hs Ep).
  simpl. rewrite list_lookup_fmap.
  destruct (fst (evaporation_draw w) !! i) as [u|] eqn:Eu; [|reflexivity].
  simpl. rewrite Forall_forall in Hdraw.
  assert (Hu : 0 <= u).
  { apply Hdraw. apply list_elem_of_lookup. eauto. }
  apply Qltb_ge. exact Hu.
Qed.

Lemma lookup_deactivated (m : list bool) (r : Status) (st : list Status)
  (i : nat) :
  deactivated m r st !! i
  = (fun s => if default false (m !! i) && negb (terminal s) then r else s)
    <$> st !! i.
Proof. apply list_lookup_imap. Qed.


(** The emulsion age of an element that is a number stays one and does
    not decrease. *)
Lemma age_emulsion_after_ge {laws : NumpyLaws lib} (self : Simulation)
  (env : Environment) (age : ndarray) (i : nat) (a' : num) :
  0 < reference_wind (model self) -> 0 <= time_step self ->
  item (lift2 nadd age
          (Array (map (fun u => nmul u (Finite (time_step self)))
                      (Urel_of self (windspeed_of env))))) i = Some a' ->
  exists a,
    item age i = Some a /\ (a <> NaN -> nle a a' /\ a' <> NaN).
Proof.
  intros Hw Hdt. rewrite item_lift2. simpl.
  destruct (item age i) as [a|]; [|discriminate]. simpl.
  unfold Urel_of. rewrite !list_lookup_fmap.
  destruct (windspeed_of env !! i) as [ws|] eqn:E; [|discriminate].
  apply windspeed_nonneg in E. simpl.
  assert (Hz : Qeq_bool (reference_wind (model self)) 0 = false)
    by (apply Qeq_bool_false; lra).
  rewrite Hz. simpl. intros [= <-].
  exists a. split; [reflexivity|]. intros Ha.
  assert (0 <= ws / reference_wind (model self))
    by (apply Qle_shift_div_l; lra).
  split; [apply nle_nadd_nonneg|apply nadd_finite_not_nan]; try assumption.
  apply Qmult_le_0_compat; assumption.
Qed.

Lemma wind_waves_idempotent (ws height : list Q) :
  wind_waves ws (wind_waves ws height) = wind_waves ws height.
Proof.
  apply list_eq. intros i. rewrite !lookup_wind_waves.
  destruct (height !! i) as [h|]; [|reflexivity]. simpl. f_equal.
  destruct (Qeq_bool h 0) eqn:E.
  - destruct (ws !! i) as [w|].
    + match goal with
      | |- context [if ?c then _ else _] => destruct c
      end; reflexivity.
    + rewrite E. reflexivity.
  - rewrite E. reflexivity.
Qed.

End More.
End OpenOilMore.

(* ================================================================== *)
(** * Further properties of [update] *)
(* ================================================================== *)

Module OpenOilExtra.
Import Numpy OpenOil NumpyFacts OpenOilFacts Scenario ScenarioFacts.
Import MoreInputs OpenOilMore.

Section Extra.
Context {lib : NumpyLib}.

(** X1.  Whatever the configuration, and also when it raises, a call of
    [update] adds the time step to [age_seconds], leaves [viscosity],
    [density], [mass_emulsion] and [depth] as they were, and keeps the
    number of elements. *)
Theorem update_keeps_what_it_does_not_model (self : Simulation) (w : World) :
  let w' := world_of (update self w) in
  age_seconds (elements w')
  = lift2 nadd (age_seconds (elements w)) (Scalar (Finite (time_step self)))
  /\ viscosity (elements w') = viscosity (elements w)
  /\ density (elements w') = density (elements w)
  /\ mass_emulsion (elements w') = mass_emulsion (elements w)
  /\ depth (elements w') = depth (elements w)
  /\ length (status (elements w')) = length (status (elements w))
  /\ length (lon (elements w')) = length (lon (elements w))
  /\ length (lat (elements w')) = length (lat (elements w)).
Proof.
  destruct (update_cases self w) as [[Hc ->] | (_ & _ & ->)]; simpl.
  - destruct (weathered_kept self w) as (Hv & Hd & Hm & Hz & Ha).
    destruct (updated_lengths self w) as [Hlon Hlat].
    assert (Hs : length (status (elements (updated self w)))
                 = length (status (elements w))).
    { rewrite updated_status, length_deactivated.
      destruct (evaporation (processes (config self)));
        rewrite ?length_deactivated; reflexivity. }
    destruct (updated_elements self w) as (x & y & E).
    rewrite E in *. simpl in *. auto 10.
  - repeat split.
Qed.

(** X2.  With evaporation off a call leaves [age_exposure_seconds] and
    [fraction_evaporated] untouched and none of its events belongs to the
    evaporation part: no draw of [np.random.rand], no deactivation for
    evaporation. *)
Theorem without_evaporation_no_exposure (self : Simulation) (w : World) :
  evaporation (processes (config self)) = false ->
  let w' := world_of (update self w) in
  age_exposure_seconds (elements w') = age_exposure_seconds (elements w)
  /\ fraction_evaporated (elements w') = fraction_evaporated (elements w)
  /\ exists evs,
       trace w' = trace w ++ evs
       /\ Forall (fun e => phase e <> 1%nat) evs
       /\ (forall n, Rand n ∉ evs)
       /\ (forall mask, Deactivate mask evaporated ∉ evs).
Proof.
  intros Hev.
  assert (Hno : forall evs : list Event,
            Forall (fun e => phase e <> 1%nat) evs ->
            (forall n, Rand n ∉ evs)
            /\ (forall mask, Deactivate mask evaporated ∉ evs)).
  { intros evs Hall. rewrite Forall_forall in Hall.
    split; intros x Hin; apply (Hall _ Hin); reflexivity. }
  destruct (update_cases self w) as [[Hc ->] | (_ & _ & ->)]; simpl.
  - rewrite updated_age_exposure_seconds, updated_fraction_evaporated, Hev.
    split; [reflexivity|]. split; [reflexivity|].
    destruct (weathered_trace_without_evaporation self w Hev)
      as (evs & Hw & Hp).
    destruct (moved_trace self (after_stranding (weathered self w)))
      as (u & v & moves & Hm & Hp5).
    exists (evs ++ Deactivate (on_land w) stranded
                :: UpdatePositions u v :: moves).
    assert (Hall : Forall (fun e => phase e <> 1%nat)
              (evs ++ Deactivate (on_land w) stranded
                   :: UpdatePositions u v :: moves)).
    { apply Forall_app. split; [exact Hp|].
      constructor; [simpl; lia|]. constructor; [simpl; lia|].
      apply Forall_impl with (1 := Hp5). intros e He. lia. }
    split; [|split; [exact Hall|apply Hno, Hall]].
    unfold updated. cbv zeta. rewrite Hm. simpl.
    rewrite Hw, weathered_land, <- !app_assoc. reflexivity.
  - split; [reflexivity|]. split; [reflexivity|].
    exists [Assign var_age_seconds].
    assert (Hall : Forall (fun e => phase e <> 1%nat)
                     [Assign var_age_seconds])
      by (repeat constructor; simpl; lia).
    split; [reflexivity|]. split; [exact Hall|apply Hno, Hall].
Qed.

(** X3.  With dispersion off a call changes neither [mass_oil] nor any
    array of the environment. *)
Theorem without_dispersion_mass_and_environment_stay (self : Simulation)
  (w : World) :
  dispersion (processes (config self)) = false ->
  let w' := world_of (update self w) in
  mass_oil (elements w') = mass_oil (elements w)
  /\ environment w' = environment w.
Proof.
  intros Hd.
  destruct (update_cases self w) as [[Hc ->] | (_ & _ & ->)]; simpl.
  - rewrite updated_mass_oil, updated_environment, weathered_environment, Hd.
    split; reflexivity.
  - split; reflexivity.
Qed.

(** X4.  With evaporation and emulsification on, every element, at the
    surface or not, has its [age_emulsion_seconds] advanced by
    [Urel * Δt] with [Urel = windspeed / reference_wind], and its
    [water_content] is the lookup of the new age in the table
    [(tref, wmax)]. *)
Theorem emulsification_ages_every_element (self : Simulation) (w : World)
  (i : nat) (a : num) (ws : Q) :
  evaporation (processes (config self)) = true ->
  emulsification (processes (config self)) = true ->
  item (age_emulsion_seconds (elements w)) i = Some a ->
  windspeed_of (environment w) !! i = Some ws ->
  let w' := world_of (update self w) in
  let a' :=
    nadd a (nmul (ndiv (Finite ws) (Finite (reference_wind (model self))))
                 (Finite (time_step self))) in
  item (age_emulsion_seconds (elements w')) i = Some a'
  /\ item (water_content (elements w')) i
     = Some (interp1 (tref (model self)) (wmax (model self)) a').
Proof.
  intros Hev Hem Ha Hws w' a'. unfold w'.
  rewrite (update_returned self w (or_introl Hev)). simpl.
  rewrite updated_water_content, updated_age_emulsion_seconds, Hem.
  assert (E : item (lift2 nadd (age_emulsion_seconds (elements w))
                (Array (map (fun u => nmul u (Finite (time_step self)))
                   (Urel_of self (windspeed_of (environment w)))))) i
              = Some a').
  { rewrite item_lift2, Ha. simpl. unfold Urel_of.
    rewrite !list_lookup_fmap, Hws. reflexivity. }
  split; [exact E|]. unfold np_interp. rewrite item_lift1, E. reflexivity.
Qed.

(** X5.  With draws that are not negative, an element that is not at the
    surface is never deactivated for evaporation: after a call that runs
    to its end its status is the one it had, or [stranded] when it was
    active and on land. *)
Theorem below_the_surface_nothing_evaporates (self : Simulation)
  (w : World) (i : nat) (d : num) (s : Status) :
  completes self ->
  item (depth (elements w)) i = Some d -> neqb d (Finite 0) = false ->
  status (elements w) !! i = Some s ->
  Forall (fun u => 0 <= u) (fst (evaporation_draw w)) ->
  status (elements (world_of (update self w))) !! i
  = Some (if default false (on_land w !! i) && negb (terminal s)
          then stranded else s).
Proof.
  intros Hc Hd Hz Hs Hdraw.
  rewrite (update_returned self w Hc). simpl.
  rewrite updated_status, lookup_deactivated.
  assert (Hi : (i < length (status (elements w)))%nat)
    by (apply lookup_lt_is_Some; eauto).
  destruct (evaporation (processes (config self))).
  - rewrite lookup_deactivated, Hs. simpl.
    rewrite (evaporated_now_below_surface self _ w i d Hd Hz Hi Hdraw).
    reflexivity.
  - rewrite Hs. reflexivity.
Qed.


(** X7.  Replacing the calm entries of the wave height is idempotent:
    done again with the same wind on the array a call has written, it
    changes nothing, and an entry that was not 0 is never touched. *)
Theorem wind_waves_settles (ws height : list Q) :
  wind_waves ws (wind_waves ws height) = wind_waves ws height
  /\ length (wind_waves ws height) = length height
  /\ forall i h, height !! i = Some h -> ~ h == 0 ->
                 wind_waves ws height !! i = Some h.
Proof.
  split; [apply wind_waves_idempotent|]. split; [apply length_imap|].
  intros i h Hh Hnz. rewrite lookup_wind_waves, Hh. simpl.
  apply Qeq_bool_false in Hnz. rewrite Hnz. reflexivity.
Qed.

(** X8.  A call only ever deactivates for evaporation or for stranding:
    the status of an element afterwards is the one it had, or, for an
    element that had not left, [evaporated] or [stranded]; dispersion
    deactivates nothing. *)
Theorem update_only_evaporates_or_strands (self : Simulation) (w : World)
  (i : nat) (s : Status) :
  status (elements w) !! i = Some s ->
  exists s',
    status (elements (world_of (update self w))) !! i = Some s'
    /\ (s' = s
        \/ (terminal s = false /\ (s' = evaporated \/ s' = stranded))).
Proof.
  intros Hs.
  destruct (update_cases self w) as [[Hc ->] | (_ & _ & ->)]; simpl.
  - rewrite updated_status, lookup_deactivated.
    destruct (evaporation (processes (config self))).
    + rewrite lookup_deactivated, Hs. simpl.
      destruct (terminal s) eqn:Et.
      * rewrite !andb_false_r. simpl. rewrite Et.
        rewrite andb_false_r. eauto.
      * rewrite !andb_true_r.
        destruct (default false (evaporated_now _ _ _ !! i)); simpl.
        -- rewrite andb_false_r. eauto 6.
        -- rewrite Et, andb_true_r.
           destruct (default false (on_land w !! i)); eauto 6.
    + rewrite Hs. simpl.
      destruct (terminal s) eqn:Et.
      * rewrite andb_false_r. eauto.
      * rewrite andb_true_r.
        destruct (default false (on_land w !! i)); eauto 6.
  - eauto.
Qed.

End Extra.

(** ** The theorems at the worked inputs *)

(** [without_evaporation_no_exposure] with only dispersion and diffusion
    on. *)
Lemma without_evaporation_no_exposure_witness :
  evaporation (processes (config (sim only_dispersion))) = false
  /\ age_exposure_seconds
       (elements (world_of (update (sim only_dispersion) (spill 1000))))
     = Array [Finite 0]
  /\ fraction_evaporated
       (elements (world_of (update (sim only_dispersion) (spill 1000))))
     = Array [Finite 0].
Proof.
  split; [reflexivity|].
  destruct (without_evaporation_no_exposure (sim only_dispersion)
              (spill 1000) eq_refl) as (Ha & Hf & _).
  split; [exact Ha|exact Hf].
Defined.

(** [without_dispersion_mass_and_environment_stay] on the scenario of
    §8. *)
Lemma without_dispersion_mass_and_environment_stay_witness :
  dispersion (processes (config (sim no_dispersion))) = false
  /\ mass_oil (elements (world_of (update (sim no_dispersion) (spill 1000))))
     = Array [Finite 1000]
  /\ environment (world_of (update (sim no_dispersion) calm))
     = weather 0 0.
Proof.
  split; [reflexivity|]. split.
  - apply (without_dispersion_mass_and_environment_stay
             (sim no_dispersion) (spill 1000) eq_refl).
  - apply (without_dispersion_mass_and_environment_stay
             (sim no_dispersion) calm eq_refl).
Defined.

(** [emulsification_ages_every_element] on the element ten metres down:
    a wind of 5 m/s, the reference wind, ages it by the time step. *)
Lemma emulsification_ages_every_element_witness :
  evaporation (processes (config (sim all_on))) = true
  /\ emulsification (processes (config (sim all_on))) = true
  /\ item (age_emulsion_seconds (elements submerged)) 1 = Some (Finite 0)
  /\ windspeed_of (environment submerged) !! 1%nat = Some 5
  /\ exists a c,
       item (age_emulsion_seconds
               (elements (world_of (update (sim all_on) submerged)))) 1
       = Some (Finite a)
       /\ a == 3600
       /\ item (water_content
                  (elements (world_of (update (sim all_on) submerged)))) 1
          = Some (Finite c)
       /\ c == 0.4.
Proof.
  do 4 (split; [reflexivity|]).
  destruct (emulsification_ages_every_element (sim all_on) submerged 1
              (Finite 0) 5 eq_refl eq_refl eq_refl eq_refl) as [Ha Hc].
  eexists _, _. split; [exact Ha|]. split; [reflexivity|].
  split; [exact Hc|]. reflexivity.
Defined.

(** [below_the_surface_nothing_evaporates] on the element ten metres
    down. *)
Lemma below_the_surface_nothing_evaporates_witness :
  completes (sim all_on)
  /\ item (depth (elements submerged)) 1 = Some (Finite 10)
  /\ neqb (Finite 10) (Finite 0) = false
  /\ status (elements submerged) !! 1%nat = Some active
  /\ Forall (fun u => 0 <= u) (fst (evaporation_draw submerged))
  /\ status (elements (world_of (update (sim all_on) submerged))) !! 1%nat
     = Some active.
Proof.
  assert (Hdraw : Forall (fun u => 0 <= u) (fst (evaporation_draw submerged))).
  { repeat constructor; unfold Qle; simpl; lia. }
  split; [left; reflexivity|]. do 3 (split; [reflexivity|]).
  split; [exact Hdraw|].
  apply (below_the_surface_nothing_evaporates (sim all_on) submerged 1
           (Finite 10) active (or_introl eq_refl) eq_refl eq_refl eq_refl
           Hdraw).
Defined.


(** [update_only_evaporates_or_strands] on the element on the shore. *)
Lemma update_only_evaporates_or_strands_witness :
  status (elements on_the_shore) !! 0%nat = Some active
  /\ exists s',
       status (elements (world_of (update (sim all_on) on_the_shore)))
         !! 0%nat = Some s'
       /\ (s' = active
           \/ (terminal active = false
               /\ (s' = evaporated \/ s' = stranded))).
Proof.
  split; [reflexivity|].
  apply (update_only_evaporates_or_strands (sim all_on) on_the_shore 0
           active eq_refl).
Defined.

End OpenOilExtra.

(* ================================================================== *)
(** * The lookups in the reference curves *)
(* ================================================================== *)

Module InterpMore.
Import Numpy OpenOil NumpyFacts OpenOilFacts Scenario ScenarioFacts.
Import MoreInputs OpenOilMore.

(** The value looked up lies between the bounds of the ordinates. *)
Lemma interp1_between (xp fp : list Q) (lo hi : Q) (a : num) (q : Q) :
  strictly_increasing xp = true -> non_decreasing fp = true ->
  Forall (fun y => lo <= y <= hi) fp ->
  interp1 xp fp a = Finite q -> lo <= q <= hi.
Proof.
  unfold interp1. intros Hx Hf Hb.
  destruct (zip xp fp) as [|[x0 y0] rest] eqn:E; [discriminate|].
  pose proof (curve_rising xp fp Hx Hf x0 y0 rest E) as Hr.
  assert (Hall : Forall (fun p : Q * Q => lo <= snd p <= hi)
                        ((x0, y0) :: rest)).
  { rewrite <- E. apply Forall_forall. intros [x y] Hin. simpl.
    apply elem_of_zip_r in Hin. rewrite Forall_forall in Hb.
    apply Hb, Hin. }
  pose proof (Forall_last _ _ _ Hall) as Hlast.
  apply Forall_cons in Hall as [Hy0 Hrest]. simpl in Hy0.
  destruct a as [qa| | |]; intros [= <-].
  - destruct (Qltb qa x0) eqn:Ea; [exact Hy0|].
    apply Qltb_ge in Ea. apply interp_from_between; assumption.
  - exact Hlast.
  - exact Hy0.
Qed.

(** The last sample point of a table is made of the last abscissa and the
    last ordinate. *)
Lemma last_zip (xs ys : list Q) (x0 y0 : Q) :
  length xs = length ys ->
  List.last (zip xs ys) (x0, y0)
  = (List.last xs x0, List.last ys y0).
Proof.
  revert ys x0 y0. induction xs as [|x xs IH]; intros [|y ys] x0 y0 Hl;
    try discriminate; [reflexivity|].
  simpl in Hl. injection Hl as Hl.
  change (zip (x :: xs) (y :: ys)) with ((x, y) :: zip xs ys).
  rewrite !last_cons_default. apply IH. exact Hl.
Qed.

(** The lookup is clamped: the first ordinate before the table, the last
    ordinate from the last abscissa on. *)
Lemma interp1_clamped (xp fp : list Q) (x0 y0 : Q) (xs ys : list Q) (q : Q) :
  strictly_increasing xp = true -> non_decreasing fp = true ->
  xp = x0 :: xs -> fp = y0 :: ys -> length xs = length ys ->
  (q < x0 -> interp1 xp fp (Finite q) = Finite y0)
  /\ (List.last xs x0 <= q ->
      interp1 xp fp (Finite q) = Finite (List.last ys y0)).
Proof.
  intros Hx Hf -> -> Hl.
  assert (E : zip (x0 :: xs) (y0 :: ys) = (x0, y0) :: zip xs ys)
    by reflexivity.
  split; intros Hq.
  - apply (interp1_left _ _ x0 y0 q (zip xs ys) E Hq).
  - pose proof (interp1_right _ _ Hx Hf x0 y0 q (zip xs ys) E) as H.
    rewrite (last_zip xs ys x0 y0 Hl) in H. simpl in H. apply H, Hq.
Qed.

Section Lookups.
Context {lib : NumpyLib}.

(** X9.  With evaporation on, [fraction_evaporated] is clamped at the
    ends of the reference curve, never extrapolated: an element whose
    exposure age after the call is below the first [tref] has the first
    [fref], one whose exposure age has reached the last [tref] has the
    last [fref]. *)
Theorem fraction_evaporated_is_clamped (self : Simulation) (w : World)
  (i : nat) (a t0 f0 : Q) (ts fs : list Q) :
  evaporation (processes (config self)) = true ->
  strictly_increasing (tref (model self)) = true ->
  non_decreasing (fref (model self)) = true ->
  tref (model self) = t0 :: ts -> fref (model self) = f0 :: fs ->
  length ts = length fs ->
  let w' := world_of (update self w) in
  item (age_exposure_seconds (elements w')) i = Some (Finite a) ->
  (a < t0 -> item (fraction_evaporated (elements w')) i = Some (Finite f0))
  /\ (List.last ts t0 <= a ->
      item (fraction_evaporated (elements w')) i
      = Some (Finite (List.last fs f0))).
Proof.
  intros Hev Hx Hf Ht Hfr Hl w'. unfold w'.
  rewrite (update_returned self w (or_introl Hev)). simpl.
  rewrite updated_age_exposure_seconds, updated_fraction_evaporated, Hev.
  simpl. intros Ha. unfold fraction_after. rewrite list_lookup_fmap, Ha.
  simpl.
  destruct (interp1_clamped _ _ t0 f0 ts fs a Hx Hf Ht Hfr Hl) as [H1 H2].
  split; intros H; [rewrite (H1 H)|rewrite (H2 H)]; reflexivity.
Qed.

(** X10.  With evaporation and emulsification on and a table
    [(tref, wmax)] with [tref] strictly increasing and [wmax]
    non-decreasing between [lo] and [hi], [water_content] after a call
    lies between [lo] and [hi], and after the next call on the same
    element (its emulsion age carried over) it is not smaller.  The
    emulsion clock is taken to run forwards: positive reference wind,
    non-negative time step, an emulsion age that is a number. *)
Theorem water_content_bounded_and_non_decreasing {laws : NumpyLaws lib}
  (self : Simulation) (w1 w2 : World) (i j : nat) (a : num) (lo hi : Q) :
  evaporation (processes (config self)) = true ->
  emulsification (processes (config self)) = true ->
  strictly_increasing (tref (model self)) = true ->
  non_decreasing (wmax (model self)) = true ->
  Forall (fun y => lo <= y <= hi) (wmax (model self)) ->
  tref (model self) <> [] -> wmax (model self) <> [] ->
  0 < reference_wind (model self) ->
  0 <= time_step self ->
  item (age_emulsion_seconds (elements w1)) i = Some a -> a <> NaN ->
  item (age_emulsion_seconds (elements w2)) j
  = item (age_emulsion_seconds (elements (world_of (update self w1)))) i ->
  forall c1 c2,
    item (water_content (elements (world_of (update self w1)))) i
    = Some c1 ->
    item (water_content (elements (world_of (update self w2)))) j
    = Some c2 ->
    exists q1 q2,
      c1 = Finite q1 /\ c2 = Finite q2
      /\ lo <= q1 /\ q1 <= q2 /\ q2 <= hi.
Proof.
  intros Hev Hem Hx Hf Hb Hxn Hfn Hw Hdt Ha Hnan Hcarry c1 c2.
  assert (Hc : completes self) by (left; exact Hev).
  rewrite !(update_returned self _ Hc) in *. simpl in *.
  rewrite !updated_water_content, Hem.
  rewrite !updated_age_emulsion_seconds, Hem in *.
  unfold np_interp. rewrite !item_lift1.
  set (age1 := lift2 nadd (age_emulsion_seconds (elements w1)) _) in *.
  set (age2 := lift2 nadd (age_emulsion_seconds (elements w2)) _) in *.
  destruct (item age1 i) as [a1|] eqn:E1; [|discriminate].
  destruct (item age2 j) as [a2|] eqn:E2; [|discriminate].
  simpl. intros [= <-] [= <-].
  destruct (age_emulsion_after_ge self _ _ _ _ Hw Hdt E1) as (a' & Ha' & H1).
  rewrite Ha in Ha'. injection Ha' as <-.
  destruct (H1 Hnan) as [_ Hnan1].
  destruct (age_emulsion_after_ge self _ _ _ _ Hw Hdt E2)
    as (a1' & Ha1' & H2).
  rewrite Hcarry in Ha1'. injection Ha1' as <-.
  destruct (H2 Hnan1) as [Hle _].
  destruct (interp1_mono _ _ Hx Hf a1 a2 (zip_not_nil _ _ Hxn Hfn) Hle)
    as (q1 & q2 & E1' & E2' & Hq).
  exists q1, q2. split; [exact E1'|]. split; [exact E2'|].
  pose proof (interp1_between _ _ lo hi a1 q1 Hx Hf Hb E1').
  pose proof (interp1_between _ _ lo hi a2 q2 Hx Hf Hb E2').
  lra.
Qed.

End Lookups.

(** [fraction_evaporated_is_clamped] on the element that has evaporated
    completely: its exposure age stays beyond the curve, its fraction
    1. *)
Lemma fraction_evaporated_is_clamped_witness :
  evaporation (processes (config (sim all_on))) = true
  /\ strictly_increasing (tref (model (sim all_on))) = true
  /\ non_decreasing (fref (model (sim all_on))) = true
  /\ tref (model (sim all_on)) = 0 :: [3600; 7200]
  /\ fref (model (sim all_on)) = 0 :: [0.5; 1]
  /\ length [3600; 7200] = length [0.5; 1]
  /\ exists a,
       item (age_exposure_seconds
               (elements (world_of (update (sim all_on) fully_evaporated))))
            0 = Some (Finite a)
       /\ 7200 <= a
       /\ item (fraction_evaporated
                  (elements (world_of (update (sim all_on)
                                         fully_evaporated)))) 0
          = Some (Finite 1).
Proof.
  do 6 (split; [reflexivity|]).
  assert (Ha : exists a,
    item (age_exposure_seconds
            (elements (world_of (update (sim all_on) fully_evaporated)))) 0
    = Some (Finite a) /\ 7200 <= a).
  { vm_compute. eexists. split; [reflexivity|]. discriminate. }
  destruct Ha as (a & Ha & Hle). exists a.
  split; [exact Ha|]. split; [exact Hle|].
  destruct (fraction_evaporated_is_clamped (sim all_on) fully_evaporated 0
              a 0 0 [3600; 7200] [0.5; 1]
              eq_refl eq_refl eq_refl eq_refl eq_refl eq_refl Ha)
    as [_ H]. apply H. exact Hle.
Defined.

(** [water_content_bounded_and_non_decreasing] on two calls in a row,
    starting from the fresh element of §8. *)
Lemma water_content_bounded_and_non_decreasing_witness :
  evaporation (processes (config (sim all_on))) = true
  /\ emulsification (processes (config (sim all_on))) = true
  /\ strictly_increasing (tref (model (sim all_on))) = true
  /\ non_decreasing (wmax (model (sim all_on))) = true
  /\ Forall (fun y => 0 <= y <= 0.8) (wmax (model (sim all_on)))
  /\ 0 < reference_wind (model (sim all_on))
  /\ 0 <= time_step (sim all_on)
  /\ exists q1 q2,
       item (water_content
               (elements (world_of (update (sim all_on) (spill 1000))))) 0
       = Some (Finite q1)
       /\ item (water_content
                  (elements
                     (world_of
                        (update (sim all_on)
                           (world_of (update (sim all_on) (spill 1000)))))))
               0
          = Some (Finite q2)
       /\ 0 <= q1 /\ q1 <= q2 /\ q2 <= 0.8.
Proof.
  assert (Hb : Forall (fun y => 0 <= y <= 0.8) (wmax (model (sim all_on)))).
  { repeat constructor; unfold Qle; simpl; lia. }
  do 4 (split; [reflexivity|]). split; [exact Hb|].
  split; [reflexivity|]. split; [discriminate|].
  assert (H1 : exists c1,
    item (water_content
            (elements (world_of (update (sim all_on) (spill 1000))))) 0
    = Some c1) by (vm_compute; eexists; reflexivity).
  assert (H2 : exists c2,
    item (water_content
            (elements
               (world_of
                  (update (sim all_on)
                     (world_of (update (sim all_on) (spill 1000))))))) 0
    = Some c2) by (vm_compute; eexists; reflexivity).
  destruct H1 as (c1 & H1). destruct H2 as (c2 & H2).
  destruct (water_content_bounded_and_non_decreasing
              (sim all_on) (spill 1000)
              (world_of (update (sim all_on) (spill 1000)))
              0 0 (Finite 0) 0 0.8
              eq_refl eq_refl eq_refl eq_refl Hb
              ltac:(discriminate) ltac:(discriminate)
              eq_refl ltac:(discriminate)
              eq_refl ltac:(discriminate) eq_refl c1 c2 H1 H2)
    as (q1 & q2 & -> & -> & Hq).
  exists q1, q2. split; [exact H1|]. split; [exact H2|exact Hq].
Defined.

End InterpMore.

(* ================================================================== *)
(** * The evaporation probability *)
(* ================================================================== *)

Module ProbabilitySpec.
Import Numpy OpenOil NumpyFacts OpenOilFacts Scenario ScenarioFacts.
Import MoreInputs OpenOilMore InterpMore.

Section Probability.
Context {lib : NumpyLib}.

(** The quotient of the evaporation part, for fractions in order. *)
Lemma conditional_fraction (f g : Q) :
  0 <= f -> f <= g -> g <= 1 -> f < 1 ->
  exists q,
    ndiv (nsub (Finite g) (Finite f)) (nsub (Finite 1) (Finite f)) = Finite q
    /\ 0 <= q <= 1.
Proof.
  intros H0 Hfg Hg Hf. simpl.
  assert (Hz : Qeq_bool (1 + - f) 0 = false) by (apply Qeq_bool_false; lra).
  rewrite Hz. eexists. split; [reflexivity|]. split.
  - apply Qle_shift_div_l; lra.
  - apply Qle_shift_div_r; lra.
Qed.

(** X11.  Once a call has looked [fraction_evaporated] up, the
    evaporation probability of the next call is a probability: for an
    element that is not evaporated completely (fraction below 1) it is a
    number between 0 and 1.  The reference curve is in order ([tref]
    strictly increasing, [fref] non-decreasing fractions of one) and the
    exposure clock runs forwards. *)
Theorem evaporation_probability_is_a_probability {laws : NumpyLaws lib}
  (self : Simulation) (w : World) (env : Environment) (i : nat)
  (a : num) (f : Q) (p : num) :
  evaporation (processes (config self)) = true ->
  strictly_increasing (tref (model self)) = true ->
  non_decreasing (fref (model self)) = true ->
  fractions (fref (model self)) = true ->
  tref (model self) <> [] -> fref (model self) <> [] ->
  0 < reference_wind (model self) ->
  0 <= reference_thickness (model self) ->
  0 <= time_step self ->
  item (age_exposure_seconds (elements w)) i = Some a -> a <> NaN ->
  let o := elements (world_of (update self w)) in
  item (fraction_evaporated o) i = Some (Finite f) -> f < 1 ->
  evaporation_probability self (windspeed_of env) o !! i = Some p ->
  exists q, p = Finite q /\ 0 <= q <= 1.
Proof.
  intros Hev Hx Hf Hu Hxn Hfn Hw Ht Hdt Ha Hnan o Hfr Hlt Hp.
  assert (Hc : completes self) by (left; exact Hev).
  assert (Ho_age : age_exposure_seconds o
                   = Array (age_exposure_after self
                              (windspeed_of (environment w)) (elements w))).
  { unfold o. rewrite (update_returned self w Hc). simpl.
    rewrite updated_age_exposure_seconds, Hev. reflexivity. }
  assert (Ho_fr : fraction_evaporated o
                  = Array (fraction_after self
                             (windspeed_of (environment w)) (elements w))).
  { unfold o. rewrite (update_returned self w Hc). simpl.
    rewrite updated_fraction_evaporated, Hev. reflexivity. }
  (* the state the first call left: fraction = lookup of the age *)
  rewrite Ho_fr in Hfr. simpl in Hfr. unfold fraction_after in Hfr.
  rewrite list_lookup_fmap in Hfr.
  destruct (age_exposure_after self (windspeed_of (environment w))
              (elements w) !! i) as [a1|] eqn:E1; [|discriminate].
  simpl in Hfr. injection Hfr as Hfr.
  destruct (age_exposure_after_ge self _ _ _ _ Hw Ht Hdt E1)
    as (a' & Ha' & H1).
  rewrite Ha in Ha'. injection Ha' as <-.
  destruct (H1 Hnan) as [_ Hnan1].
  (* the probability of the second call *)
  unfold evaporation_probability, evaporation_probability_of, fill_where
    in Hp.
  rewrite list_lookup_imap in Hp.
  destruct (lift2_l ndiv _ _ !! i) as [p0|] eqn:Ep; [|discriminate].
  simpl in Hp.
  destruct (default false (map negb (at_surface_in o) !! i)).
  { injection Hp as <-. exists 0. split; [reflexivity|lra]. }
  injection Hp as <-.
  rewrite !lookup_lift2_l, item_lift1 in Ep.
  destruct (fraction_after self (windspeed_of env) o !! i) as [g|] eqn:Eg;
    [|discriminate].
  rewrite Ho_fr in Ep. simpl in Ep. unfold fraction_after at 1 2 in Ep.
  rewrite !list_lookup_fmap, E1 in Ep. simpl in Ep.
  rewrite Hfr in Ep. injection Ep as <-.
  unfold fraction_after in Eg. rewrite list_lookup_fmap in Eg.
  destruct (age_exposure_after self (windspeed_of env) o !! i)
    as [a2|] eqn:E2; [|discriminate].
  simpl in Eg. injection Eg as <-.
  destruct (age_exposure_after_ge self _ _ _ _ Hw Ht Hdt E2)
    as (a1' & Ha1' & H2).
  rewrite Ho_age in Ha1'. simpl in Ha1'. rewrite E1 in Ha1'.
  injection Ha1' as <-.
  destruct (H2 Hnan1) as [Hle _].
  destruct (interp1_mono _ _ Hx Hf a1 a2 (zip_not_nil _ _ Hxn Hfn) Hle)
    as (q1 & q2 & E1' & E2' & Hq).
  rewrite E1' in Hfr. injection Hfr as ->.
  rewrite E2'.
  pose proof (interp1_fraction _ _ Hx Hf a1 f Hu E1').
  pose proof (interp1_fraction _ _ Hx Hf a2 q2 Hu E2').
  apply conditional_fraction; lra.
Qed.

End Probability.

(** [evaporation_probability_is_a_probability] on the second call after
    the fresh element of §8. *)
Lemma evaporation_probability_is_a_probability_witness :
  evaporation (processes (config (sim all_on))) = true
  /\ exists f q,
       item (fraction_evaporated
               (elements (world_of (update (sim all_on) (spill 1000))))) 0
       = Some (Finite f)
       /\ f == 0.5
       /\ evaporation_probability (sim all_on)
            (windspeed_of (weather 2 0))
            (elements (world_of (update (sim all_on) (spill 1000))))
          !! 0%nat
          = Some (Finite q)
       /\ 0 <= q <= 1.
Proof.
  split; [reflexivity|].
  assert (Hf : exists f,
    item (fraction_evaporated
            (elements (world_of (update (sim all_on) (spill 1000))))) 0
    = Some (Finite f) /\ f == 0.5 /\ f < 1).
  { vm_compute. eexists. split; [reflexivity|]. split; reflexivity. }
  destruct Hf as (f & Hf & Hhalf & Hlt).
  assert (Hp : exists p,
    evaporation_probability (sim all_on) (windspeed_of (weather 2 0))
      (elements (world_of (update (sim all_on) (spill 1000)))) !! 0%nat
    = Some p) by (vm_compute; eexists; reflexivity).
  destruct Hp as (p & Hp).
  destruct (evaporation_probability_is_a_probability (sim all_on)
              (spill 1000) (weather 2 0) 0 (Finite 0) f p
              eq_refl eq_refl eq_refl eq_refl
              ltac:(discriminate) ltac:(discriminate)
              eq_refl ltac:(discriminate) ltac:(discriminate)
              eq_refl ltac:(discriminate) Hf Hlt Hp)
    as (q & -> & Hq).
  exists f, q. split; [exact Hf|]. split; [exact Hhalf|].
  split; [exact Hp|exact Hq].
Defined.

End ProbabilitySpec.

(* ================================================================== *)
(** * The oil properties read by [__init__] *)
(* ================================================================== *)

Module OilPropertiesSpec.
Import Numpy OpenOil NumpyFacts OilProperties MoreInputs.

Lemma scaled_strictly_increasing (c : Q) (l : list Q) :
  0 < c -> strictly_increasing l = true ->
  strictly_increasing (map (fun v => v * c) l) = true.
Proof.
  intros Hc. induction l as [|x [|y l] IH]; intros H; try reflexivity.
  simpl in H. apply andb_true_iff in H as [Hxy H].
  change (Qltb (x * c) (y * c)
          && strictly_increasing (map (fun v => v * c) (y :: l)) = true).
  apply andb_true_iff. split; [|apply IH, H].
  apply Qltb_lt in Hxy. apply Qltb_lt. nra.
Qed.

Lemma scaled_non_decreasing (c : Q) (l : list Q) :
  0 <= c -> non_decreasing l = true ->
  non_decreasing (map (fun v => v * c) l) = true.
Proof.
  intros Hc. induction l as [|x [|y l] IH]; intros H; try reflexivity.
  simpl in H. apply andb_true_iff in H as [Hxy H].
  change (Qle_bool (x * c) (y * c)
          && non_decreasing (map (fun v => v * c) (y :: l)) = true).
  apply andb_true_iff. split; [|apply IH, H].
  apply Qle_bool_iff in Hxy. apply Qle_bool_iff. nra.
Qed.

Lemma percentages_fractions (l : list Q) :
  percentages l = true -> fractions (map (fun p => p * 0.01) l) = true.
Proof.
  unfold percentages, fractions. rewrite !forallb_forall.
  intros H y Hy. apply in_map_iff in Hy as (p & <- & Hp).
  specialize (H p Hp). apply andb_true_iff in H as [H0 H1].
  apply Qle_bool_iff in H0, H1.
  apply andb_true_iff. split; apply Qle_bool_iff; lra.
Qed.

Lemma column_length (oilprop : list (list Q)) (j : nat) (c : list Q) :
  column_after_first oilprop j = Some c ->
  length c = (length oilprop - 1)%nat.
Proof.
  unfold column_after_first. destruct (decide _); [|discriminate].
  intros H. apply length_mapM in H. rewrite <- H.
  destruct oilprop; simpl; lia.
Qed.

(** X12.  The model [__init__] builds keeps the order of the property
    file: its three tables have one entry per row after the first and are
    not empty; when the hours of the file increase strictly so does
    [tref] (the hours times 3600), when its percentages do not decrease
    neither does [fref] (the percentages times 0.01), and percentages
    between 0 and 100 give fractions of one: the preconditions of the
    evaporation lookup. *)
Theorem init_model_keeps_the_curve_in_order (oilprop : list (list Q))
  (m : Model) :
  init_model oilprop = Some m ->
  exists hours percent,
    column_after_first oilprop 0 = Some hours
    /\ column_after_first oilprop 1 = Some percent
    /\ tref m = map (fun h => h * 3600) hours
    /\ fref m = map (fun p => p * 0.01) percent
    /\ length (tref m) = (length oilprop - 1)%nat
    /\ length (fref m) = (length oilprop - 1)%nat
    /\ length (wmax m) = (length oilprop - 1)%nat
    /\ tref m <> [] /\ fref m <> []
    /\ (strictly_increasing hours = true ->
        strictly_increasing (tref m) = true)
    /\ (non_decreasing percent = true -> non_decreasing (fref m) = true)
    /\ (percentages percent = true -> fractions (fref m) = true).
Proof.
  unfold init_model. intros H.
  destruct (two_dimensional oilprop) eqn:E2; [|discriminate].
  apply andb_true_iff in E2 as [Hrows _]. apply Nat.leb_le in Hrows.
  destruct (column_after_first oilprop 1) as [percent|] eqn:E1;
    [|discriminate].
  destruct (column_after_first oilprop 0) as [hours|] eqn:E0;
    [|discriminate].
  destruct (column_after_first oilprop 3) as [water|] eqn:E3;
    [|discriminate].
  simpl in H.
  destruct (entry oilprop 0 1) as [wind|]; [|discriminate].
  destruct (entry oilprop 0 0) as [thickness|]; [|discriminate].
  simpl in H. injection H as <-. simpl.
  exists hours, percent.
  pose proof (column_length _ _ _ E0) as L0.
  pose proof (column_length _ _ _ E1) as L1.
  pose proof (column_length _ _ _ E3) as L3.
  rewrite !length_map.
  split; [reflexivity|]. split; [reflexivity|].
  split; [reflexivity|]. split; [reflexivity|].
  split; [exact L0|]. split; [exact L1|]. split; [exact L3|].
  split; [destruct hours; [simpl in L0; lia|discriminate]|].
  split; [destruct percent; [simpl in L1; lia|discriminate]|].
  split; [|split].
  - apply scaled_strictly_increasing. reflexivity.
  - apply scaled_non_decreasing. unfold Qle. simpl. lia.
  - apply percentages_fractions.
Qed.

Lemma rectangular_lookup (oilprop : list (list Q)) (j : nat) :
  rectangular oilprop -> (j < columns oilprop)%nat ->
  Forall (fun row : list Q => is_Some (row !! j)) oilprop.
Proof.
  unfold rectangular. intros Hr Hj.
  apply Forall_impl with (1 := Hr). intros row Hrow.
  apply lookup_lt_is_Some. lia.
Qed.

(** X13.  On the rows of a property file, all of one length,
    [__init__] finds its entries exactly when there are at least two
    rows and at least four columns; otherwise a subscript raises. *)
Theorem init_model_needs_four_columns (oilprop : list (list Q)) :
  rectangular oilprop ->
  (is_Some (init_model oilprop)
   <-> (2 <= length oilprop)%nat /\ (4 <= columns oilprop)%nat).
Proof.
  intros Hr. unfold init_model. split.
  - intros [m H].
    destruct (two_dimensional oilprop) eqn:E2; [|discriminate].
    apply andb_true_iff in E2 as [Hrows _]. apply Nat.leb_le in Hrows.
    split; [exact Hrows|].
    destruct (decide (3 < columns oilprop)%nat) as [|Hn]; [lia|].
    exfalso.
    assert (E3 : column_after_first oilprop 3 = None).
    { unfold column_after_first.
      destruct (decide (3 < columns oilprop)%nat); [lia|reflexivity]. }
    rewrite E3 in H.
    destruct (column_after_first oilprop 1); simpl in H; [|discriminate].
    destruct (column_after_first oilprop 0); simpl in H; discriminate.
  - intros [H2 H4].
    assert (E2 : two_dimensional oilprop = true).
    { apply andb_true_iff. split; apply Nat.leb_le; lia. }
    rewrite E2. unfold column_after_first.
    assert (Hcol : forall j, (j < 4)%nat ->
              is_Some (mapM (fun row : list Q => row !! j) (tail oilprop))).
    { intros j Hj. apply mapM_is_Some.
      assert (Hall := rectangular_lookup oilprop j Hr ltac:(lia)).
      destruct oilprop as [|row rows]; [constructor|].
      apply Forall_cons in Hall as [_ Hall]. exact Hall. }
    destruct (decide (1 < columns oilprop)%nat); [|lia].
    destruct (decide (0 < columns oilprop)%nat); [|lia].
    destruct (decide (3 < columns oilprop)%nat); [|lia].
    destruct (Hcol 1%nat ltac:(lia)) as [c1 ->].
    destruct (Hcol 0%nat ltac:(lia)) as [c0 ->].
    destruct (Hcol 3%nat ltac:(lia)) as [c3 ->]. simpl.
    destruct oilprop as [|row rows]; [simpl in H4; lia|].
    unfold entry. simpl. simpl in H4.
    destruct (lookup_lt_is_Some_2 row 1) as [x1 ->]; [lia|].
    destruct (lookup_lt_is_Some_2 row 0) as [x0 ->]; [lia|].
    simpl. eauto.
Qed.

(** [init_model_keeps_the_curve_in_order] on a small property file. *)
Lemma init_model_keeps_the_curve_in_order_witness :
  exists m,
    init_model prop_dat = Some m
    /\ strictly_increasing (tref m) = true
    /\ non_decreasing (fref m) = true
    /\ fractions (fref m) = true.
Proof.
  assert (E : exists m, init_model prop_dat = Some m)
    by (vm_compute; eexists; reflexivity).
  destruct E as (m & E). exists m. split; [exact E|].
  destruct (init_model_keeps_the_curve_in_order prop_dat m E)
    as (hours & percent & E0 & E1 & _ & _ & _ & _ & _ & _ & _
        & H1 & H2 & H3).
  vm_compute in E0, E1. injection E0 as <-. injection E1 as <-.
  split; [apply H1; reflexivity|].
  split; [apply H2; reflexivity|apply H3; reflexivity].
Defined.

(** [init_model_needs_four_columns] on the same file. *)
Lemma init_model_needs_four_columns_witness :
  rectangular prop_dat /\ is_Some (init_model prop_dat).
Proof.
  assert (Hr : rectangular prop_dat) by (repeat constructor).
  split; [exact Hr|].
  apply (init_model_needs_four_columns prop_dat Hr). simpl. lia.
Defined.

End OilPropertiesSpec.

(* ================================================================== *)
(** * The area of a slick in [seed_from_gml] *)
(* ================================================================== *)

Module GmlSpec.
Import Gml.

Lemma getitem_is_Some (a : list Q) (i : Z) :
  (- Z.of_nat (length a) <= i < Z.of_nat (length a))%Z ->
  is_Some (getitem a i).
Proof.
  intros Hi. unfold getitem.
  destruct ((0 <=? i) && (i <? Z.of_nat (length a)))%Z eqn:E1.
  - apply lookup_lt_is_Some. lia.
  - destruct ((- Z.of_nat (length a) <=? i) && (i <? 0))%Z eqn:E2.
    + apply lookup_lt_is_Some. lia.
    + lia.
Qed.

Lemma elem_of_indices (n : nat) (i : Z) :
  i ∈ indices n <-> (-1 <= i < Z.of_nat n - 1)%Z.
Proof.
  unfold indices. rewrite list_elem_of_fmap. split.
  - intros (k & -> & Hk). apply elem_of_seq in Hk. lia.
  - intros Hi. exists (Z.to_nat (i + 1)). split; [lia|].
    apply elem_of_seq. lia.
Qed.

Lemma accumulate_is_Some (x y : list Q) (range : list Z) :
  Forall (fun i => is_Some (term x y i)) range ->
  forall a, is_Some (accumulate x y (Some a) range).
Proof.
  induction 1 as [|i range [t Ht] _ IH]; intros a; simpl; [eauto|].
  rewrite Ht. simpl. apply IH.
Qed.

Lemma term_is_Some (x y : list Q) (i : Z) :
  length x = length y -> (2 <= length x)%nat ->
  (-1 <= i < Z.of_nat (length x) - 1)%Z ->
  is_Some (term x y i).
Proof.
  intros Hl Hn Hi. unfold term.
  destruct (getitem_is_Some x i) as [xi ->]; [lia|].
  destruct (getitem_is_Some y (i + 1)) as [a ->]; [lia|].
  destruct (getitem_is_Some y (i - 1)) as [b ->]; [lia|].
  simpl. eauto.
Qed.

(** X14.  For [x] and [y] of one length the area is defined and not
    negative, except for a single vertex: there [y[i-1]] is [y[-2]], out
    of bounds.  Without vertices the loop does not run and the area is
    0. *)
Theorem area_of_polygon_defined (x y : list Q) :
  length x = length y ->
  (length x = 1%nat -> area_of_polygon x y = None)
  /\ (length x <> 1%nat ->
      exists a, area_of_polygon x y = Some a /\ 0 <= a)
  /\ (length x = 0%nat ->
      exists a, area_of_polygon x y = Some a /\ a == 0).
Proof.
  intros Hl. split; [|split].
  - intros H1. destruct x as [|x0 [|]]; try discriminate.
    destruct y as [|y0 [|]]; try discriminate. reflexivity.
  - intros Hn. unfold area_of_polygon.
    assert (Hs : is_Some (accumulate x y (Some 0) (indices (length x)))).
    { apply accumulate_is_Some. apply Forall_forall. intros i Hi.
      apply elem_of_indices in Hi.
      apply term_is_Some; [exact Hl| |exact Hi]. lia. }
    destruct Hs as [s ->]. simpl. eexists. split; [reflexivity|].
    apply Qle_shift_div_l; [reflexivity|].
    pose proof (Qabs_nonneg s). lra.
  - intros H0. destruct x; [|discriminate]. simpl.
    eexists. split; [reflexivity|]. reflexivity.
Qed.

(** X15.  The area of a rectangle with sides along the axes, its four
    corners given in order, is the product of its sides; it is the same
    when the first corner closes the ring as a fifth vertex, the way the
    polygons of a slick come. *)
Theorem area_of_rectangle (x0 y0 w h : Q) :
  (exists a,
     area_of_polygon [x0; x0 + w; x0 + w; x0] [y0; y0; y0 + h; y0 + h]
     = Some a /\ a == Qabs (w * h))
  /\ (exists a,
        area_of_polygon [x0; x0 + w; x0 + w; x0; x0]
                        [y0; y0; y0 + h; y0 + h; y0]
        = Some a /\ a == Qabs (w * h)).
Proof.
  assert (Habs : forall s, s == 2 * (w * h) -> Qabs s / 2 == Qabs (w * h)).
  { intros s ->. rewrite Qabs_Qmult.
    change (Qabs 2) with 2. field. }
  split; (eexists; split; [reflexivity|]); apply Habs; ring.
Qed.

(** [area_of_polygon_defined] on a triangle. *)
Lemma area_of_polygon_defined_witness :
  length [0; 4; 0] = length [0; 0; 3]
  /\ exists a, area_of_polygon [0; 4; 0] [0; 0; 3] = Some a /\ 0 <= a.
Proof.
  split; [reflexivity|].
  destruct (area_of_polygon_defined [0; 4; 0] [0; 0; 3] eq_refl)
    as (_ & H & _).
  apply H. discriminate.
Defined.

End GmlSpec.

(* ================================================================== *)
(** * The area as a sum *)
(* ================================================================== *)

Module GmlSums.
Import Gml GmlSpec.

Lemma Qsum_app (l k : list Q) : Qsum (l ++ k) == Qsum l + Qsum k.
Proof.
  induction l as [|a l IH]; simpl; [ring|]. rewrite IH. ring.
Qed.

(** The loop adds up its terms. *)
Lemma accumulate_sum (x y : list Q) (range : list Z) :
  Forall (fun i => is_Some (term x y i)) range ->
  forall a,
    exists s,
      accumulate x y (Some a) range = Some s
      /\ s == a + Qsum (map (fun i => at_index x i
                                      * (at_index y (i + 1)
                                         - at_index y (i - 1))) range).
Proof.
  induction 1 as [|i range [t Ht] _ IH]; intros a; simpl.
  - exists a. split; [reflexivity|ring].
  - rewrite Ht. simpl. destruct (IH (a + t)) as (s & -> & Hs).
    exists s. split; [reflexivity|]. rewrite Hs.
    unfold term in Ht. unfold at_index.
    destruct (getitem x i) as [xi|]; [|discriminate].
    destruct (getitem y (i + 1)) as [ya|]; [|discriminate].
    destruct (getitem y (i - 1)) as [yb|]; [|discriminate].
    simpl in Ht. injection Ht as <-. simpl. ring.
Qed.

Lemma getitem_map (f : Q -> Q) (a : list Q) (i : Z) :
  getitem (map f a) i = f <$> getitem a i.
Proof.
  unfold getitem. rewrite length_map.
  destruct ((0 <=? i) && (i <? Z.of_nat (length a)))%Z;
    [apply list_lookup_fmap|].
  destruct ((- Z.of_nat (length a) <=? i) && (i <? 0))%Z;
    [apply list_lookup_fmap|reflexivity].
Qed.

Lemma at_index_map (c : Q) (a : list Q) (i : Z) :
  (- Z.of_nat (length a) <= i < Z.of_nat (length a))%Z ->
  at_index (map (fun v => v + c) a) i = at_index a i + c.
Proof.
  intros Hi. unfold at_index. rewrite getitem_map.
  destruct (getitem_is_Some a i Hi) as [v ->]. reflexivity.
Qed.

Lemma indices_S (n : nat) :
  indices (S n) = indices n ++ [(Z.of_nat n - 1)%Z].
Proof.
  unfold indices. rewrite seq_S, map_app. reflexivity.
Qed.

(** The differences [y[i+1] - y[i-1]] over the first [m] rounds of the
    loop telescope. *)
Lemma differences_telescope (y : list Q) (m : nat) :
  (2 <= m <= length y)%nat ->
  Qsum (map (fun i => at_index y (i + 1) - at_index y (i - 1)) (indices m))
  == at_index y (Z.of_nat m - 2) + at_index y (Z.of_nat m - 1)
     - at_index y (-2) - at_index y (-1).
Proof.
  intros [H2 Hm]. induction m as [|m IH]; [lia|].
  destruct (decide (m = 1%nat)) as [->|Hne].
  - unfold indices, Qsum. simpl.
    repeat match goal with
           | |- context [at_index y ?z] =>
               let z' := eval vm_compute in z in progress change z with z'
           end.
    ring.
  - rewrite indices_S, map_app, Qsum_app, IH by lia. simpl.
    replace (Z.of_nat m - 1 + 1)%Z with (Z.of_nat (S m) - 1)%Z by lia.
    replace (Z.of_nat m - 1 - 1)%Z with (Z.of_nat m - 2)%Z by lia.
    replace (Z.of_nat (S m) - 2)%Z with (Z.of_nat m - 1)%Z by lia.
    ring.
Qed.

Lemma at_index_wraps (y : list Q) (k : Z) :
  (- Z.of_nat (length y) <= k < 0)%Z ->
  at_index y k = at_index y (Z.of_nat (length y) + k).
Proof.
  intros Hk. unfold at_index, getitem.
  destruct ((0 <=? k) && (k <? Z.of_nat (length y)))%Z eqn:E1; [lia|].
  destruct ((- Z.of_nat (length y) <=? k) && (k <? 0))%Z eqn:E2; [|lia].
  destruct ((0 <=? Z.of_nat (length y) + k)
            && (Z.of_nat (length y) + k <? Z.of_nat (length y)))%Z eqn:E3;
    [reflexivity|lia].
Qed.

(** Around the whole ring the differences add up to nothing. *)
Lemma differences_cancel (y : list Q) :
  (2 <= length y)%nat ->
  Qsum (map (fun i => at_index y (i + 1) - at_index y (i - 1))
            (indices (length y))) == 0.
Proof.
  intros H2. rewrite differences_telescope by lia.
  rewrite (at_index_wraps y (-2)), (at_index_wraps y (-1)) by lia.
  replace (Z.of_nat (length y) + -2)%Z with (Z.of_nat (length y) - 2)%Z
    by lia.
  replace (Z.of_nat (length y) + -1)%Z with (Z.of_nat (length y) - 1)%Z
    by lia.
  ring.
Qed.

Lemma Qsum_ext (f g : Z -> Q) (range : list Z) :
  Forall (fun i => f i == g i) range ->
  Qsum (map f range) == Qsum (map g range).
Proof.
  induction 1 as [|i range Hi _ IH]; simpl; [reflexivity|].
  rewrite Hi, IH. reflexivity.
Qed.

Lemma Qsum_scale_add (c : Q) (f g : Z -> Q) (range : list Z) :
  Qsum (map (fun i => f i + c * g i) range)
  == Qsum (map f range) + c * Qsum (map g range).
Proof.
  induction range as [|i range IH]; simpl; [ring|]. rewrite IH. ring.
Qed.

(** X16.  The area does not depend on where the polygon lies: moving
    every vertex by the same [(cx, cy)] gives the same area (and the same
    failure for a single vertex). *)
Theorem area_of_polygon_translation (x y : list Q) (cx cy : Q) :
  length x = length y ->
  match area_of_polygon x y,
        area_of_polygon (map (fun v => v + cx) x) (map (fun v => v + cy) y)
  with
  | Some a, Some a' => a' == a
  | None, None => True
  | _, _ => False
  end.
Proof.
  intros Hl.
  destruct (decide (length x = 1%nat)) as [H1|H1].
  - destruct x as [|x0 [|]]; try discriminate.
    destruct y as [|y0 [|]]; try discriminate. exact I.
  - destruct (decide (length x = 0%nat)) as [H0|H0].
    + destruct x; [|discriminate]. destruct y; [|discriminate].
      simpl. reflexivity.
    + assert (Hn : (2 <= length x)%nat) by lia.
      set (x' := map (fun v => v + cx) x).
      set (y' := map (fun v => v + cy) y).
      assert (Hlx : length x' = length x) by apply length_map.
      assert (Hly : length y' = length y) by apply length_map.
      assert (Hdef : Forall (fun i => is_Some (term x y i))
                            (indices (length x))).
      { apply Forall_forall. intros i Hi. apply elem_of_indices in Hi.
        apply term_is_Some; assumption. }
      assert (Hdef' : Forall (fun i => is_Some (term x' y' i))
                             (indices (length x'))).
      { apply Forall_forall. intros i Hi. apply elem_of_indices in Hi.
        apply term_is_Some; lia. }
      unfold area_of_polygon.
      destruct (accumulate_sum x y _ Hdef 0) as (s & -> & Hs).
      destruct (accumulate_sum x' y' _ Hdef' 0) as (s' & -> & Hs').
      simpl.
      assert (E : s' == s).
      { rewrite Hs, Hs', Hlx.
        rewrite (Qsum_ext _
          (fun i => at_index x i * (at_index y (i + 1) - at_index y (i - 1))
                    + cx * (at_index y (i + 1) - at_index y (i - 1)))).
        - rewrite Qsum_scale_add, Hl, differences_cancel by lia. ring.
        - apply Forall_forall. intros i Hi. apply elem_of_indices in Hi.
          unfold x', y'. rewrite !at_index_map by lia. ring. }
      rewrite E. reflexivity.
Qed.

(** [area_of_polygon_translation] on the same triangle, moved by
    (10, -7). *)
Lemma area_of_polygon_translation_witness :
  length [0; 4; 0] = length [0; 0; 3]
  /\ match area_of_polygon [0; 4; 0] [0; 0; 3],
           area_of_polygon (map (fun v => v + 10) [0; 4; 0])
                           (map (fun v => v + -7) [0; 0; 3])
     with
     | Some a, Some a' => a' == a
     | None, None => True
     | _, _ => False
     end.
Proof.
  split; [reflexivity|].
  apply (area_of_polygon_translation [0; 4; 0] [0; 0; 3] 10 (-7) eq_refl).
Defined.

End GmlSums.

(* ================================================================== *)
(** * Further properties of the combined reader *)
(* ================================================================== *)

Module NumopsExtra.
Import Numpy NumpyFacts Numops NumopsSpec.

Section Combined.
Context {Args : Type}.

Lemma apply_op_dom (op : ndarray -> ndarray) (env : gmap string ndarray) :
  dom (apply_op op env) = dom env.
Proof.
  apply set_eq. intros k. rewrite !elem_of_dom, apply_op_lookup.
  destruct (decide (k ∈ coordinates)); [reflexivity|].
  rewrite fmap_is_Some. reflexivity.
Qed.

(** X17.  Whatever its operation, a combined reader returns dictionaries
    with exactly the names the wrapped reader returned: it adds no
    variable and drops none, and the coordinates [x], [y] and [time] come
    back with the wrapped reader's values. *)
Theorem combined_keeps_the_names (self : Combined Args) (args : Args) :
  let env := fst (_get_variables_interpolated_ (r self) args) in
  let env_profiles := snd (_get_variables_interpolated_ (r self) args) in
  let env' := fst (Combined_get_variables_interpolated self args) in
  let env_profiles' := snd (Combined_get_variables_interpolated self args) in
  dom env' = dom env
  /\ dom env_profiles' = dom env_profiles
  /\ (forall var, var ∈ coordinates ->
                  env' !! var = env !! var
                  /\ env_profiles' !! var = env_profiles !! var)
  /\ (forall var v, var ∉ coordinates -> env !! var = Some v ->
                    env' !! var = Some (op self v))
  /\ (forall var v, var ∉ coordinates -> env_profiles !! var = Some v ->
                    env_profiles' !! var = Some (op self v)).
Proof.
  unfold Combined_get_variables_interpolated.
  destruct (_get_variables_interpolated_ (r self) args)
    as [env env_profiles]. simpl.
  split; [apply apply_op_dom|]. split; [apply apply_op_dom|].
  split; [|split].
  - intros var Hv. rewrite !apply_op_lookup.
    destruct (decide (var ∈ coordinates)); [|contradiction].
    split; reflexivity.
  - intros var v Hv E. rewrite apply_op_lookup, E.
    destruct (decide (var ∈ coordinates)); [contradiction|reflexivity].
  - intros var v Hv E. rewrite apply_op_lookup, E.
    destruct (decide (var ∈ coordinates)); [contradiction|reflexivity].
Qed.

End Combined.
End NumopsExtra.

(* ================================================================== *)
(** * The use of the random source *)
(* ================================================================== *)

Module RandomnessSpec.
Import Numpy OpenOil NumpyFacts OpenOilFacts Scenario ScenarioFacts.
Import MoreInputs OpenOilMore Draws.

Section Randomness.
Context {lib : NumpyLib}.

Lemma perturbed_without_noise (self : Simulation) (w : World) :
  np_random (perturbed self None w) = np_random w
  /\ exists u v,
       trace (perturbed self None w) = trace w ++ [UpdatePositions u v].
Proof. split; [reflexivity|]. eexists _, _. reflexivity. Qed.

Lemma weathered_without_evaporation_draws_nothing (self : Simulation)
  (w : World) :
  evaporation (processes (config self)) = false ->
  np_random (weathered self w) = np_random w
  /\ exists evs,
       trace (weathered self w) = trace w ++ evs
       /\ Forall (fun e => is_draw e = false) evs.
Proof.
  intros Hev. unfold weathered. rewrite Hev.
  destruct (emulsification (processes (config self))),
           (dispersion (processes (config self)));
    (split; [reflexivity|]); simpl; rewrite <- ?app_assoc; simpl;
    (eexists; split; [reflexivity|]); repeat constructor.
Qed.

(** X18.  A call draws from the random source only where the
    configuration asks for it: with evaporation off and no noise to add
    (diffusion off, or a current uncertainty that is not positive
    together with a wind drift factor or a wind uncertainty that is not
    positive) it leaves the state of the random source as it was and
    calls neither [np.random.rand] nor [np.random.normal]. *)
Theorem update_draws_only_where_configured (self : Simulation) (w : World) :
  evaporation (processes (config self)) = false ->
  diffusion (processes (config self)) = false
  \/ (current_uncertainty (drift (config self)) <= 0
      /\ (wind_drift_factor (drift (config self)) <= 0
          \/ wind_uncertainty (drift (config self)) <= 0)) ->
  let w' := world_of (update self w) in
  np_random w' = np_random w
  /\ exists evs,
       trace w' = trace w ++ evs /\ Forall (fun e => is_draw e = false) evs.
Proof.
  intros Hev Hquiet.
  destruct (update_cases self w) as [[Hc ->] | (_ & _ & ->)]; simpl.
  - destruct (weathered_without_evaporation_draws_nothing self w Hev)
      as (Hr & evs & Ht & Hall).
    set (w5 := after_drift self (after_stranding (weathered self w))).
    assert (H5 : np_random w5 = np_random w
                 /\ exists evs5,
                      trace w5 = trace w ++ evs5
                      /\ Forall (fun e => is_draw e = false) evs5).
    { split; [exact Hr|]. unfold w5. simpl. rewrite Ht, <- !app_assoc.
      eexists. split; [reflexivity|].
      apply Forall_app. split; [exact Hall|]. repeat constructor. }
    destruct H5 as (Hr5 & evs5 & Ht5 & Hall5).
    unfold updated. cbv zeta. fold w5.
    destruct (diffusion (processes (config self))) eqn:Hd.
    + destruct Hquiet as [|[Hcur Hwind]]; [discriminate|].
      assert (Ec : current_noise self = None).
      { unfold current_noise.
        rewrite (proj2 (Qltb_ge _ _) Hcur). reflexivity. }
      assert (Ew : wind_noise self = None).
      { unfold wind_noise. destruct Hwind as [Hf|Hu].
        - rewrite (proj2 (Qltb_ge _ _) Hf). reflexivity.
        - rewrite (proj2 (Qltb_ge _ _) Hu), andb_false_r. reflexivity. }
      unfold after_diffusion. rewrite Ec, Ew.
      destruct (perturbed_without_noise self w5) as (Hr6 & u & v & Ht6).
      destruct (perturbed_without_noise self (perturbed self None w5))
        as (Hr7 & u' & v' & Ht7).
      rewrite Hr7, Hr6, Hr5. split; [reflexivity|].
      rewrite Ht7, Ht6, Ht5, <- !app_assoc.
      eexists. split; [reflexivity|].
      apply Forall_app. split; [exact Hall5|]. repeat constructor.
    + split; [exact Hr5|]. exists evs5. split; [exact Ht5|exact Hall5].
  - split; [reflexivity|]. exists [Assign var_age_seconds].
    split; [reflexivity|]. repeat constructor.
Qed.

End Randomness.

(** [update_draws_only_where_configured] with only the dispersion and a
    diffusion without noise. *)
Lemma update_draws_only_where_configured_witness :
  evaporation (processes (config quiet)) = false
  /\ current_uncertainty (drift (config quiet)) <= 0
  /\ wind_uncertainty (drift (config quiet)) <= 0
  /\ np_random (world_of (update quiet (spill 1000))) = [0.9].
Proof.
  split; [reflexivity|]. split; [discriminate|]. split; [discriminate|].
  apply (update_draws_only_where_configured quiet (spill 1000) eq_refl).
  right. split; [discriminate|]. right. discriminate.
Defined.

End RandomnessSpec.
